(** * Monster Slayer: the battle logic of [Game.jsx]

    A shallow embedding of the state, the helper functions, the button
    handlers and the effects of the [Game] component of
    [Start_code/src/components/Game.jsx], followed by the properties of the
    battle engine.

    The component is a React function component.  Three facts of React's
    execution model shape the embedding:

    - every handler and effect is a closure over the values of ONE render:
      [playerHealth], [monsterHealth], [gameOver], ... read inside a handler
      are the values of the render in which the button was drawn, also after
      the handler has called a setter;
    - a setter call does not assign: it queues an update (a value, or an
      updater function applied to the pending value); the queue of one
      event is processed in order once the handler has returned;
    - after the render that follows, the effects whose dependencies changed
      run, as closures over the new render, and queue updates of their own.

    A handler is therefore a function from the rendered state (and the draws
    of [Math.random] it consumes) to the list of queued updates. *)

From Stdlib Require Import ZArith QArith Qround Bool List String Ascii Lia.
From Stdlib Require Import DecimalString.
Import ListNotations.

Local Open Scope Z_scope.

(** ** JavaScript numbers and strings

    Every number of the state is an integer far below 2^53, so it is a [Z];
    a draw of [Math.random()] and the critical multiplier are doubles,
    idealised as rationals. *)

Module JS.

(** [Math.floor]. *)
Definition Math_floor (x : Q) : Z := Qfloor x.

(** [x < y] on numbers. *)
Definition lt (x y : Q) : bool := negb (Qle_bool y x).

(** [`${n}`] for an integer [n]. *)
Definition toString (n : Z) : string := NilZero.string_of_int (Z.to_int n).

(** A value [Math.random()] can return: a number of [0, 1). *)
Definition unit_interval (r : Q) : Prop := (0 <= r)%Q /\ (r < 1)%Q.

End JS.

(** ** Helper functions *)

(** [getRandomValue(min, max)], [r] being the value of [Math.random()]. *)
Definition getRandomValue (min max : Z) (r : Q) : Z :=
  JS.Math_floor (r * inject_Z (max - min)) + min.

(** [isCriticalHit()], [r] being the value of [Math.random()]. *)
Definition isCriticalHit (r : Q) : bool := JS.lt r (2 # 10).

(** An entry of the battle log.  [isCritical] is absent ([undefined]) from
    the entries that [createLogAttack] does not build. *)
Record LogEntry := {
  isPlayer : bool;
  isDamage : bool;
  isCritical : option bool;
  text : string
}.

Definition createLogAttack (isPlayer : bool) (damage : Z) (isCritical : bool)
  : LogEntry :=
  {| isPlayer := isPlayer;
     isDamage := true;
     isCritical := Some isCritical;
     text := " takes " ++ JS.toString damage ++ " damage"
             ++ (if isCritical then " (CRITICAL HIT!)" else "") |}.

Definition createLogHeal (healing : Z) (isMaxed : bool) : LogEntry :=
  {| isPlayer := true;
     isDamage := false;
     isCritical := None;
     text := " heals " ++ JS.toString healing ++ " life points"
             ++ (if isMaxed then " (MAX HEALTH!)" else "") |}.

(** ** States and variables *)

Inductive Winner := player | monster | draw.

Record GameStats := {
  playerDamageDealt : Z;
  monsterDamageDealt : Z;
  healingDone : Z;
  criticalHits : Z;
  roundsPlayed : Z
}.

(** The values of the [useState] hooks in one render; [winner] is [None]
    for [null]. *)
Record GameState := {
  playerHealth : Z;
  monsterHealth : Z;
  currentRound : Z;
  battleLog : list LogEntry;
  gameOver : bool;
  winner : option Winner;
  specialAttackAvailable : bool;
  specialAttackCooldown : Z;
  lastActionWasCritical : bool;
  gameStats : GameStats
}.

Definition initialStats : GameStats :=
  {| playerDamageDealt := 0; monsterDamageDealt := 0; healingDone := 0;
     criticalHits := 0; roundsPlayed := 0 |}.

(** The arguments of the [useState] calls. *)
Definition initialState : GameState :=
  {| playerHealth := 100; monsterHealth := 100; currentRound := 0;
     battleLog := []; gameOver := false; winner := None;
     specialAttackAvailable := true; specialAttackCooldown := 0;
     lastActionWasCritical := false; gameStats := initialStats |}.

Definition ATTACK_MIN_DAMAGE : Z := 5.
Definition ATTACK_MAX_DAMAGE : Z := 12.
Definition SPECIAL_ATTACK_MIN_DAMAGE : Z := 10.
Definition SPECIAL_ATTACK_MAX_DAMAGE : Z := 20.
Definition MONSTER_ATTACK_MIN_DAMAGE : Z := 8.
Definition MONSTER_ATTACK_MAX_DAMAGE : Z := 15.
Definition HEAL_MIN_VALUE : Z := 8.
Definition HEAL_MAX_VALUE : Z := 20.
Definition SPECIAL_ATTACK_COOLDOWN : Z := 3.
Definition CRITICAL_HIT_MULTIPLIER : Q := 15 # 10.

(** ** Queued updates

    One constructor per setter.  The setters the component calls with an
    updater function carry the function; the others carry the value. *)
Inductive Update :=
| setPlayerHealth (v : Z)
| setMonsterHealth (v : Z)
| setCurrentRound (f : Z -> Z)
| setBattleLog (f : list LogEntry -> list LogEntry)
| setGameOver (v : bool)
| setWinner (v : option Winner)
| setSpecialAttackAvailable (v : bool)
| setSpecialAttackCooldown (f : Z -> Z)
| setLastActionWasCritical (v : bool)
| setGameStats (f : GameStats -> GameStats).

(** Processing one queued update. *)
Definition apply_update (s : GameState) (u : Update) : GameState :=
  match u with
  | setPlayerHealth v =>
      {| playerHealth := v; monsterHealth := monsterHealth s;
         currentRound := currentRound s; battleLog := battleLog s;
         gameOver := gameOver s; winner := winner s;
         specialAttackAvailable := specialAttackAvailable s;
         specialAttackCooldown := specialAttackCooldown s;
         lastActionWasCritical := lastActionWasCritical s;
         gameStats := gameStats s |}
  | setMonsterHealth v =>
      {| playerHealth := playerHealth s; monsterHealth := v;
         currentRound := currentRound s; battleLog := battleLog s;
         gameOver := gameOver s; winner := winner s;
         specialAttackAvailable := specialAttackAvailable s;
         specialAttackCooldown := specialAttackCooldown s;
         lastActionWasCritical := lastActionWasCritical s;
         gameStats := gameStats s |}
  | setCurrentRound f =>
      {| playerHealth := playerHealth s; monsterHealth := monsterHealth s;
         currentRound := f (currentRound s); battleLog := battleLog s;
         gameOver := gameOver s; winner := winner s;
         specialAttackAvailable := specialAttackAvailable s;
         specialAttackCooldown := specialAttackCooldown s;
         lastActionWasCritical := lastActionWasCritical s;
         gameStats := gameStats s |}
  | setBattleLog f =>
      {| playerHealth := playerHealth s; monsterHealth := monsterHealth s;
         currentRound := currentRound s; battleLog := f (battleLog s);
         gameOver := gameOver s; winner := winner s;
         specialAttackAvailable := specialAttackAvailable s;
         specialAttackCooldown := specialAttackCooldown s;
         lastActionWasCritical := lastActionWasCritical s;
         gameStats := gameStats s |}
  | setGameOver v =>
      {| playerHealth := playerHealth s; monsterHealth := monsterHealth s;
         currentRound := currentRound s; battleLog := battleLog s;
         gameOver := v; winner := winner s;
         specialAttackAvailable := specialAttackAvailable s;
         specialAttackCooldown := specialAttackCooldown s;
         lastActionWasCritical := lastActionWasCritical s;
         gameStats := gameStats s |}
  | setWinner v =>
      {| playerHealth := playerHealth s; monsterHealth := monsterHealth s;
         currentRound := currentRound s; battleLog := battleLog s;
         gameOver := gameOver s; winner := v;
         specialAttackAvailable := specialAttackAvailable s;
         specialAttackCooldown := specialAttackCooldown s;
         lastActionWasCritical := lastActionWasCritical s;
         gameStats := gameStats s |}
  | setSpecialAttackAvailable v =>
      {| playerHealth := playerHealth s; monsterHealth := monsterHealth s;
         currentRound := currentRound s; battleLog := battleLog s;
         gameOver := gameOver s; winner := winner s;
         specialAttackAvailable := v;
         specialAttackCooldown := specialAttackCooldown s;
         lastActionWasCritical := lastActionWasCritical s;
         gameStats := gameStats s |}
  | setSpecialAttackCooldown f =>
      {| playerHealth := playerHealth s; monsterHealth := monsterHealth s;
         currentRound := currentRound s; battleLog := battleLog s;
         gameOver := gameOver s; winner := winner s;
         specialAttackAvailable := specialAttackAvailable s;
         specialAttackCooldown := f (specialAttackCooldown s);
         lastActionWasCritical := lastActionWasCritical s;
         gameStats := gameStats s |}
  | setLastActionWasCritical v =>
      {| playerHealth := playerHealth s; monsterHealth := monsterHealth s;
         currentRound := currentRound s; battleLog := battleLog s;
         gameOver := gameOver s; winner := winner s;
         specialAttackAvailable := specialAttackAvailable s;
         specialAttackCooldown := specialAttackCooldown s;
         lastActionWasCritical := v;
         gameStats := gameStats s |}
  | setGameStats f =>
      {| playerHealth := playerHealth s; monsterHealth := monsterHealth s;
         currentRound := currentRound s; battleLog := battleLog s;
         gameOver := gameOver s; winner := winner s;
         specialAttackAvailable := specialAttackAvailable s;
         specialAttackCooldown := specialAttackCooldown s;
         lastActionWasCritical := lastActionWasCritical s;
         gameStats := f (gameStats s) |}
  end.

(** Processing the queue of one event, oldest update first. *)
Definition commit (s : GameState) (queue : list Update) : GameState :=
  fold_left apply_update queue s.

(** [addLogMessage(logEntry)]. *)
Definition addLogMessage (logEntry : LogEntry) : list Update :=
  [setBattleLog (fun prevLog => logEntry :: prevLog)].

(** ** Button event functions

    [s] is the render the handler closes over; the [r]s are the values of
    the calls of [Math.random()], in the order the handler makes them. *)

(** The guard shared by the handlers: [gameOver || playerHealth <= 0 ||
    monsterHealth <= 0]. *)
Definition actionBlocked (s : GameState) : bool :=
  gameOver s || (playerHealth s <=? 0) || (monsterHealth s <=? 0).

(** [Math.floor(damage * CRITICAL_HIT_MULTIPLIER)]. *)
Definition criticalDamage (damage : Z) : Z :=
  JS.Math_floor (inject_Z damage * CRITICAL_HIT_MULTIPLIER).

Definition monsterAttack (s : GameState) (r1 r2 : Q) : list Update :=
  if actionBlocked s then []
  else
    let critical := isCriticalHit r1 in
    let damage :=
      getRandomValue MONSTER_ATTACK_MIN_DAMAGE MONSTER_ATTACK_MAX_DAMAGE r2 in
    let damage := if critical then criticalDamage damage else damage in
    let newHealth := Z.max (playerHealth s - damage) 0 in
    [setPlayerHealth newHealth;
     setGameStats (fun prev =>
       {| playerDamageDealt := playerDamageDealt prev;
          monsterDamageDealt := monsterDamageDealt prev + damage;
          healingDone := healingDone prev;
          criticalHits := criticalHits prev;
          roundsPlayed := roundsPlayed prev |})]
    ++ addLogMessage (createLogAttack false damage critical).

Definition attackMonster (s : GameState) (r1 r2 r3 r4 : Q)
  : list Update :=
  if actionBlocked s then []
  else
    let critical := isCriticalHit r1 in
    let damage := getRandomValue ATTACK_MIN_DAMAGE ATTACK_MAX_DAMAGE r2 in
    let damage := if critical then criticalDamage damage else damage in
    let newMonsterHealth := Z.max (monsterHealth s - damage) 0 in
    [setCurrentRound (fun prevRound => prevRound + 1)]
    ++ (if critical
        then [setLastActionWasCritical true;
              setGameStats (fun prev =>
                {| playerDamageDealt := playerDamageDealt prev;
                   monsterDamageDealt := monsterDamageDealt prev;
                   healingDone := healingDone prev;
                   criticalHits := criticalHits prev + 1;
                   roundsPlayed := roundsPlayed prev |})]
        else [setLastActionWasCritical false])
    ++ [setMonsterHealth newMonsterHealth;
        setGameStats (fun prev =>
          {| playerDamageDealt := playerDamageDealt prev + damage;
             monsterDamageDealt := monsterDamageDealt prev;
             healingDone := healingDone prev;
             criticalHits := criticalHits prev;
             roundsPlayed := roundsPlayed prev + 1 |})]
    ++ addLogMessage (createLogAttack true damage critical)
    ++ (if 0 <? specialAttackCooldown s
        then [setSpecialAttackCooldown (fun prev => prev - 1)] else [])
    ++ (if 0 <? newMonsterHealth then monsterAttack s r3 r4 else []).

Definition specialAttackMonster (s : GameState) (r1 r2 r3 r4 : Q)
  : list Update :=
  if actionBlocked s || negb (specialAttackAvailable s) then []
  else
    let critical := isCriticalHit r1 in
    let damage := getRandomValue SPECIAL_ATTACK_MIN_DAMAGE SPECIAL_ATTACK_MAX_DAMAGE r2 in
    let damage := if critical then criticalDamage damage else damage in
    let newMonsterHealth := Z.max (monsterHealth s - damage) 0 in
    [setCurrentRound (fun prevRound => prevRound + 1)]
    ++ (if critical
        then [setLastActionWasCritical true;
              setGameStats (fun prev =>
                {| playerDamageDealt := playerDamageDealt prev;
                   monsterDamageDealt := monsterDamageDealt prev;
                   healingDone := healingDone prev;
                   criticalHits := criticalHits prev + 1;
                   roundsPlayed := roundsPlayed prev |})]
        else [setLastActionWasCritical false])
    ++ [setMonsterHealth newMonsterHealth;
        setGameStats (fun prev =>
          {| playerDamageDealt := playerDamageDealt prev + damage;
             monsterDamageDealt := monsterDamageDealt prev;
             healingDone := healingDone prev;
             criticalHits := criticalHits prev;
             roundsPlayed := roundsPlayed prev + 1 |})]
    ++ addLogMessage (createLogAttack true damage critical)
    ++ [setSpecialAttackCooldown (fun _ => SPECIAL_ATTACK_COOLDOWN);
        setSpecialAttackAvailable false]
    ++ (if 0 <? newMonsterHealth then monsterAttack s r3 r4 else []).

Definition healPlayer (s : GameState) (r1 r2 r3 : Q) : list Update :=
  if actionBlocked s || (playerHealth s =? 100) then []
  else
    let healing := getRandomValue HEAL_MIN_VALUE HEAL_MAX_VALUE r1 in
    let isMaxed := 100 <=? playerHealth s + healing in
    let newPlayerHealth := Z.min (playerHealth s + healing) 100 in
    [setCurrentRound (fun prevRound => prevRound + 1);
     setPlayerHealth newPlayerHealth;
     setGameStats (fun prev =>
       {| playerDamageDealt := playerDamageDealt prev;
          monsterDamageDealt := monsterDamageDealt prev;
          healingDone :=
            healingDone prev
            + (if isMaxed then 100 - playerHealth s else healing);
          criticalHits := criticalHits prev;
          roundsPlayed := roundsPlayed prev + 1 |})]
    ++ addLogMessage (createLogHeal healing isMaxed)
    ++ (if 0 <? specialAttackCooldown s
        then [setSpecialAttackCooldown (fun prev => prev - 1)] else [])
    ++ monsterAttack s r2 r3.

Definition surrenderEntry : LogEntry :=
  {| isPlayer := true; isDamage := false; isCritical := None;
     text := " surrendered to the monster!" |}.

Definition surrender (s : GameState) : list Update :=
  if gameOver s then []
  else
    [setPlayerHealth 0; setWinner (Some monster); setGameOver true]
    ++ addLogMessage surrenderEntry.

Definition resetGame (s : GameState) : list Update :=
  [setPlayerHealth 100;
   setMonsterHealth 100;
   setCurrentRound (fun _ => 0);
   setBattleLog (fun _ => []);
   setGameOver false;
   setWinner None;
   setSpecialAttackAvailable true;
   setSpecialAttackCooldown (fun _ => 0);
   setLastActionWasCritical false;
   setGameStats (fun _ => initialStats)].

Definition checkForWinner (s : GameState) : list Update :=
  if (monsterHealth s <=? 0) && (playerHealth s <=? 0)
  then [setWinner (Some draw); setGameOver true]
  else if monsterHealth s <=? 0
  then [setWinner (Some player); setGameOver true]
  else if playerHealth s <=? 0
  then [setWinner (Some monster); setGameOver true]
  else [].

(** ** Effects *)

(** The effect on [[specialAttackCooldown]]. *)
Definition cooldownEffect (s : GameState) : list Update :=
  if 0 <? specialAttackCooldown s
  then [setSpecialAttackAvailable false]
  else [setSpecialAttackAvailable true].

(** The updates queued by the effects of the render [s] that follows the
    render [prev]: an effect runs when one of its dependencies differs from
    its value in the previous render.  (The effect on [[battleLog]] only
    scrolls the log and queues nothing.) *)
Definition effects (prev s : GameState) : list Update :=
  (if specialAttackCooldown prev =? specialAttackCooldown s
   then [] else cooldownEffect s)
  ++ (if (playerHealth prev =? playerHealth s)
         && (monsterHealth prev =? monsterHealth s)
      then [] else checkForWinner s).

(** One event: the handler's queue is processed, the component renders, and
    the effects of that render queue their updates, which are processed in
    turn.  No effect changes a dependency of an effect, so the render after
    that one runs none ([effects_settle] below). *)
Definition dispatch (s : GameState) (queue : list Update) : GameState :=
  let s1 := commit s queue in
  commit s1 (effects s s1).

(** ** The public actions *)

Inductive Action :=
| Attack (r1 r2 r3 r4 : Q)
| SpecialAttack (r1 r2 r3 r4 : Q)
| Heal (r1 r2 r3 : Q)
| Surrender
| Reset.

Definition handler (s : GameState) (a : Action) : list Update :=
  match a with
  | Attack r1 r2 r3 r4 => attackMonster s r1 r2 r3 r4
  | SpecialAttack r1 r2 r3 r4 => specialAttackMonster s r1 r2 r3 r4
  | Heal r1 r2 r3 => healPlayer s r1 r2 r3
  | Surrender => surrender s
  | Reset => resetGame s
  end.

(** The state once the action [a], clicked in the render [s], is complete. *)
Definition step (s : GameState) (a : Action) : GameState :=
  dispatch s (handler s a).

(** A game: the actions of [l], one after the other. *)
Definition play (s : GameState) (l : list Action) : GameState :=
  fold_left step l s.

(** The draws of an action are values of [Math.random()]. *)
Definition wellDrawn (a : Action) : Prop :=
  match a with
  | Attack r1 r2 r3 r4 | SpecialAttack r1 r2 r3 r4 =>
      JS.unit_interval r1 /\ JS.unit_interval r2
      /\ JS.unit_interval r3 /\ JS.unit_interval r4
  | Heal r1 r2 r3 =>
      JS.unit_interval r1 /\ JS.unit_interval r2 /\ JS.unit_interval r3
  | Surrender | Reset => True
  end.

(** ** JSX functions

    Of the markup each function returns, the parts that depend on the
    state. *)

(** [renderControls()]: the [disabled] prop of the four action buttons, and
    whether the START NEW GAME button is rendered. *)
Record Controls := {
  attackDisabled : bool;
  specialDisabled : bool;
  healDisabled : bool;
  surrenderDisabled : bool;
  resetRendered : bool
}.

Definition renderControls (s : GameState) : Controls :=
  {| attackDisabled :=
       gameOver s || (playerHealth s <=? 0) || (monsterHealth s <=? 0);
     specialDisabled :=
       gameOver s || negb (specialAttackAvailable s)
       || (playerHealth s <=? 0) || (monsterHealth s <=? 0);
     healDisabled :=
       gameOver s || (playerHealth s =? 100)
       || (playerHealth s <=? 0) || (monsterHealth s <=? 0);
     surrenderDisabled :=
       gameOver s || (playerHealth s <=? 0) || (monsterHealth s <=? 0);
     resetRendered := gameOver s |}.

(** [renderGameOver()]: [None] for [null]; otherwise the class and the text
    of the headline, and the statistics listed below it. *)
Record GameOverSection := {
  winnerClass : string;
  message : string;
  listedStats : GameStats
}.

Definition renderGameOver (s : GameState) : option GameOverSection :=
  if negb (gameOver s) then None
  else
    match winner s with
    | Some player =>
        Some {| winnerClass := "winner-player"; message := "You won!";
                listedStats := gameStats s |}
    | Some monster =>
        Some {| winnerClass := "winner-monster"; message := "You lost!";
                listedStats := gameStats s |}
    | _ =>
        Some {| winnerClass := "winner-draw"; message := "It's a draw!";
                listedStats := gameStats s |}
    end.

(** * Vocabulary of the properties *)

(** The damage of a hit: the roll, multiplied on a critical hit. *)
Definition rolledDamage (minDamage maxDamage : Z) (r1 r2 : Q) : Z :=
  let damage := getRandomValue minDamage maxDamage r2 in
  if isCriticalHit r1 then criticalDamage damage else damage.

(** The updates of [healPlayer] before its call of [monsterAttack]. *)
Definition healOwnQueue (s : GameState) (r1 : Q) : list Update :=
  let healing := getRandomValue HEAL_MIN_VALUE HEAL_MAX_VALUE r1 in
  let isMaxed := 100 <=? playerHealth s + healing in
  [setCurrentRound (fun prevRound => prevRound + 1);
   setPlayerHealth (Z.min (playerHealth s + healing) 100);
   setGameStats (fun prev =>
     {| playerDamageDealt := playerDamageDealt prev;
        monsterDamageDealt := monsterDamageDealt prev;
        healingDone :=
          healingDone prev
          + (if isMaxed then 100 - playerHealth s else healing);
        criticalHits := criticalHits prev;
        roundsPlayed := roundsPlayed prev + 1 |})]
  ++ addLogMessage (createLogHeal healing isMaxed)
  ++ (if 0 <? specialAttackCooldown s
      then [setSpecialAttackCooldown (fun prev => prev - 1)] else []).

(** The guard of the turn actions lets the handler run. *)
Definition inProgress (s : GameState) : Prop :=
  gameOver s = false /\ 0 < playerHealth s /\ 0 < monsterHealth s.

(** A battle in progress with the given healths, everything else as at the
    start of a game. *)
Definition battle (player monster : Z) : GameState :=
  {| playerHealth := player; monsterHealth := monster; currentRound := 0;
     battleLog := []; gameOver := false; winner := None;
     specialAttackAvailable := true; specialAttackCooldown := 0;
     lastActionWasCritical := false; gameStats := initialStats |}.

(** ** Invariants and outcomes *)

(** Both healths are in [0, 100]. *)
Definition healthBounded (s : GameState) : Prop :=
  (0 <= playerHealth s <= 100) /\ (0 <= monsterHealth s <= 100).

(** The game is over exactly when a health is used up. *)
Definition consistent (s : GameState) : Prop :=
  gameOver s = true <-> (playerHealth s <= 0 \/ monsterHealth s <= 0).

(** The availability flag follows the cooldown, which is never negative. *)
Definition cooldownTracked (s : GameState) : Prop :=
  0 <= specialAttackCooldown s
  /\ specialAttackAvailable s = (specialAttackCooldown s =? 0).

(** A health written by an update is in [0, 100]. *)
Definition healthUpdateOK (u : Update) : Prop :=
  match u with
  | setPlayerHealth v | setMonsterHealth v => 0 <= v <= 100
  | _ => True
  end.

(** What a hit of [damage] by the player, run in the state [s] and settled
    in [s'], does about the monster's turn: [r3] and [r4] are the draws the
    counter-attack consumes. *)
Definition chainedAfterHit (s s' : GameState) (damage : Z) (critical : bool)
  (r3 r4 : Q) : Prop :=
  let newMonsterHealth := Z.max (monsterHealth s - damage) 0 in
  let monsterDamage :=
    rolledDamage MONSTER_ATTACK_MIN_DAMAGE MONSTER_ATTACK_MAX_DAMAGE r3 r4 in
  monsterHealth s' = newMonsterHealth
  /\ (0 < newMonsterHealth ->
      battleLog s'
      = createLogAttack false monsterDamage (isCriticalHit r3)
        :: createLogAttack true damage critical :: battleLog s
      /\ playerHealth s' = Z.max (playerHealth s - monsterDamage) 0
      /\ monsterDamageDealt (gameStats s')
         = monsterDamageDealt (gameStats s) + monsterDamage)
  /\ (newMonsterHealth <= 0 ->
      battleLog s' = createLogAttack true damage critical :: battleLog s
      /\ playerHealth s' = playerHealth s
      /\ monsterDamageDealt (gameStats s') = monsterDamageDealt (gameStats s)
      /\ winner s' = Some player
      /\ gameOver s' = true)
  /\ ((exists e : LogEntry,
          hd_error (battleLog s') = Some e /\ isPlayer e = false)
      <-> 0 < newMonsterHealth).

(** ** The mark of a capped heal

    A log entry has no field for [isMaxed]: what [createLogHeal] keeps of
    it is the end of the entry's text. *)

(** [s.endsWith(suffix)]. *)
Fixpoint endsWith (suffix s : string) : bool :=
  match s with
  | EmptyString => String.eqb suffix EmptyString
  | String _ s' => String.eqb suffix s || endsWith suffix s'
  end.

(** The mark of a capped heal on a log entry. *)
Definition capped (e : LogEntry) : bool :=
  endsWith " (MAX HEALTH!)" (text e).

(** The last character of a string, if it has one. *)
Fixpoint lastChar (s : string) : option ascii :=
  match s with
  | EmptyString => None
  | String c s' =>
      match lastChar s' with
      | None => Some c
      | Some c' => Some c'
      end
  end.

(** ** Further vocabulary *)

(** The three actions that take a turn. *)
Definition takesTurn (a : Action) : bool :=
  match a with
  | Attack _ _ _ _ | SpecialAttack _ _ _ _ | Heal _ _ _ => true
  | Surrender | Reset => false
  end.

Definition isReset (a : Action) : bool :=
  match a with Reset => true | _ => false end.

Definition isSurrender (a : Action) : bool :=
  match a with Surrender => true | _ => false end.

(** The guard of the handler of [a] lets it run in the render [s]. *)
Definition runs (s : GameState) (a : Action) : bool :=
  match a with
  | Attack _ _ _ _ => negb (actionBlocked s)
  | SpecialAttack _ _ _ _ =>
      negb (actionBlocked s || negb (specialAttackAvailable s))
  | Heal _ _ _ => negb (actionBlocked s || (playerHealth s =? 100))
  | Surrender => negb (gameOver s)
  | Reset => true
  end.

(** The winner agrees with the healths, and there is one exactly when the
    game is over; the healths are never both used up. *)
Definition winnerSettled (s : GameState) : Prop :=
  (gameOver s = false /\ winner s = None
   /\ 0 < playerHealth s /\ 0 < monsterHealth s)
  \/ (gameOver s = true /\ winner s = Some player
      /\ 0 < playerHealth s /\ monsterHealth s <= 0)
  \/ (gameOver s = true /\ winner s = Some monster
      /\ playerHealth s <= 0 /\ 0 < monsterHealth s).

(** No statistic of [st] is above its value in [st']. *)
Definition statsLe (st st' : GameStats) : Prop :=
  playerDamageDealt st <= playerDamageDealt st'
  /\ monsterDamageDealt st <= monsterDamageDealt st'
  /\ healingDone st <= healingDone st'
  /\ criticalHits st <= criticalHits st'
  /\ roundsPlayed st <= roundsPlayed st'.

(** The healths are what the damage counted so far leaves of 100, the
    player's unless the player has surrendered. *)
Definition damageAccounted (s : GameState) : Prop :=
  monsterHealth s = Z.max (100 - playerDamageDealt (gameStats s)) 0
  /\ (playerHealth s = Z.max (100 - monsterDamageDealt (gameStats s)) 0
      \/ (playerHealth s = 0 /\ gameOver s = true)).

(** The rounds are counted twice, alike; a game in progress has cost the
    player 8 points a round at least, and no game has more than 13. *)
Definition roundsBounded (s : GameState) : Prop :=
  currentRound s = roundsPlayed (gameStats s)
  /\ 0 <= currentRound s <= 13
  /\ (inProgress s -> playerHealth s <= 100 - 8 * currentRound s).

(** ** Tactics *)

(** Case analysis on the conditions of a queue. *)
Ltac split_ifs :=
  repeat match goal with
         | |- context [if ?b then _ else _] => destruct b
         end.

(** Goals [Forall healthUpdateOK q], [q] a queue written out. *)
Ltac forall_updates :=
  cbn [app addLogMessage];
  repeat (apply Forall_cons; [cbn [healthUpdateOK]; try exact I; try lia|]);
  try apply Forall_nil.

(** Case analysis on the integer tests of the goal. *)
Ltac case_Z :=
  repeat match goal with
         | |- context [?a =? ?b] => destruct (Z.eqb_spec a b)
         | |- context [?a <=? ?b] => destruct (Z.leb_spec a b)
         | |- context [?a <? ?b] => destruct (Z.ltb_spec a b)
         end.

(** The fields of a settled state written out as a record. *)
Ltac settled_fields :=
  cbv zeta;
  cbn [playerHealth monsterHealth currentRound battleLog gameOver winner
       specialAttackAvailable specialAttackCooldown lastActionWasCritical
       gameStats playerDamageDealt monsterDamageDealt healingDone
       criticalHits roundsPlayed].

(** * Properties *)

(** ** Rolls *)

Lemma getRandomValue_range (min max : Z) (r : Q) :
  min < max -> JS.unit_interval r ->
  min <= getRandomValue min max r < max.
Proof.
  intros Hlt [H0 H1]. unfold getRandomValue, JS.Math_floor.
  set (k := max - min). assert (Hk : 0 < k) by (unfold k; lia).
  assert (HkQ : (inject_Z 0 < inject_Z k)%Q) by (rewrite <- Zlt_Qlt; exact Hk).
  change (inject_Z 0) with 0%Q in HkQ.
  assert (Hlo : 0 <= Qfloor (r * inject_Z k)).
  { change 0 with (Qfloor 0). apply Qfloor_resp_le.
    apply Qmult_le_0_compat; [exact H0 | apply Qlt_le_weak; exact HkQ]. }
  assert (Hhi : Qfloor (r * inject_Z k) < k).
  { rewrite Zlt_Qlt. eapply Qle_lt_trans; [apply Qfloor_le|].
    setoid_replace (inject_Z k) with (1 * inject_Z k)%Q at 2 by ring.
    apply Qmult_lt_compat_r; assumption. }
  unfold k in *. lia.
Qed.

Lemma criticalDamage_div (damage : Z) : criticalDamage damage = damage * 3 / 2.
Proof.
  unfold criticalDamage, JS.Math_floor, CRITICAL_HIT_MULTIPLIER, Qfloor.
  cbn [inject_Z Qmult Qnum Qden Pos.mul].
  change (Z.pos 10) with (2 * 5). replace (damage * 15) with (damage * 3 * 5) by lia.
  apply Z.div_mul_cancel_r; lia.
Qed.

Lemma criticalDamage_ge (damage : Z) : 0 <= damage -> damage <= criticalDamage damage.
Proof.
  intros H. rewrite criticalDamage_div.
  apply Z.div_le_lower_bound; lia.
Qed.

Lemma rolledDamage_lower (min max : Z) (r1 r2 : Q) :
  0 <= min -> min < max -> JS.unit_interval r2 ->
  min <= rolledDamage min max r1 r2.
Proof.
  intros Hmin Hlt Hr. unfold rolledDamage.
  pose proof (getRandomValue_range min max r2 Hlt Hr) as Hd.
  destruct (isCriticalHit r1); [|lia].
  pose proof (criticalDamage_ge (getRandomValue min max r2)). lia.
Qed.

(** ** The queues, processed

    What each handler's queue makes of the pending state.  In the lemmas on
    [monsterAttack], [s] is the render the handler closes over and [s0] the
    pending state its updates are applied to: the new player health is
    computed from [s]. *)

Lemma commit_app (s : GameState) (q1 q2 : list Update) :
  commit s (q1 ++ q2) = commit (commit s q1) q2.
Proof. apply fold_left_app. Qed.

Lemma commit_monsterAttack (s0 s : GameState) (r1 r2 : Q) :
  actionBlocked s = false ->
  commit s0 (monsterAttack s r1 r2) =
  let damage :=
    rolledDamage MONSTER_ATTACK_MIN_DAMAGE MONSTER_ATTACK_MAX_DAMAGE r1 r2 in
  {| playerHealth := Z.max (playerHealth s - damage) 0;
     monsterHealth := monsterHealth s0;
     currentRound := currentRound s0;
     battleLog := createLogAttack false damage (isCriticalHit r1) :: battleLog s0;
     gameOver := gameOver s0;
     winner := winner s0;
     specialAttackAvailable := specialAttackAvailable s0;
     specialAttackCooldown := specialAttackCooldown s0;
     lastActionWasCritical := lastActionWasCritical s0;
     gameStats :=
       {| playerDamageDealt := playerDamageDealt (gameStats s0);
          monsterDamageDealt := monsterDamageDealt (gameStats s0) + damage;
          healingDone := healingDone (gameStats s0);
          criticalHits := criticalHits (gameStats s0);
          roundsPlayed := roundsPlayed (gameStats s0) |} |}.
Proof.
  intros Hg. unfold monsterAttack, rolledDamage. rewrite Hg. reflexivity.
Qed.

(** The render after the effects have run. *)
Lemma commit_effects (prev s : GameState) :
  commit s (effects prev s) =
  let sameHealths :=
    (playerHealth prev =? playerHealth s)
    && (monsterHealth prev =? monsterHealth s) in
  {| playerHealth := playerHealth s;
     monsterHealth := monsterHealth s;
     currentRound := currentRound s;
     battleLog := battleLog s;
     gameOver :=
       if sameHealths then gameOver s
       else if (monsterHealth s <=? 0) || (playerHealth s <=? 0) then true
       else gameOver s;
     winner :=
       if sameHealths then winner s
       else if (monsterHealth s <=? 0) && (playerHealth s <=? 0)
       then Some draw
       else if monsterHealth s <=? 0 then Some player
       else if playerHealth s <=? 0 then Some monster
       else winner s;
     specialAttackAvailable :=
       if specialAttackCooldown prev =? specialAttackCooldown s
       then specialAttackAvailable s
       else negb (0 <? specialAttackCooldown s);
     specialAttackCooldown := specialAttackCooldown s;
     lastActionWasCritical := lastActionWasCritical s;
     gameStats := gameStats s |}.
Proof.
  unfold effects, cooldownEffect, checkForWinner.
  destruct ((playerHealth prev =? playerHealth s)
            && (monsterHealth prev =? monsterHealth s));
    destruct (specialAttackCooldown prev =? specialAttackCooldown s);
    destruct (0 <? specialAttackCooldown s);
    destruct (monsterHealth s <=? 0);
    destruct (playerHealth s <=? 0);
    destruct s; reflexivity.
Qed.

(** The effects change none of their own dependencies: the render that
    follows them runs no effect, and the state is settled. *)
Lemma effects_settle (prev s : GameState) :
  let s' := commit s (effects prev s) in
  effects s s' = [].
Proof.
  cbv zeta. rewrite commit_effects. unfold effects. cbn.
  rewrite !Z.eqb_refl. reflexivity.
Qed.

(** An empty queue: no render, no effect. *)
Lemma dispatch_nil (s : GameState) : dispatch s [] = s.
Proof.
  unfold dispatch, effects. cbn. rewrite !Z.eqb_refl. reflexivity.
Qed.

Lemma commit_attackMonster (s : GameState) (r1 r2 r3 r4 : Q) :
  actionBlocked s = false ->
  commit s (attackMonster s r1 r2 r3 r4) =
  let damage := rolledDamage ATTACK_MIN_DAMAGE ATTACK_MAX_DAMAGE r1 r2 in
  let newMonsterHealth := Z.max (monsterHealth s - damage) 0 in
  let monsterDamage :=
    rolledDamage MONSTER_ATTACK_MIN_DAMAGE MONSTER_ATTACK_MAX_DAMAGE r3 r4 in
  let chained := 0 <? newMonsterHealth in
  {| playerHealth :=
       if chained then Z.max (playerHealth s - monsterDamage) 0
       else playerHealth s;
     monsterHealth := newMonsterHealth;
     currentRound := currentRound s + 1;
     battleLog :=
       (if chained
        then [createLogAttack false monsterDamage (isCriticalHit r3)] else [])
       ++ createLogAttack true damage (isCriticalHit r1) :: battleLog s;
     gameOver := gameOver s;
     winner := winner s;
     specialAttackAvailable := specialAttackAvailable s;
     specialAttackCooldown :=
       if 0 <? specialAttackCooldown s then specialAttackCooldown s - 1
       else specialAttackCooldown s;
     lastActionWasCritical := isCriticalHit r1;
     gameStats :=
       {| playerDamageDealt := playerDamageDealt (gameStats s) + damage;
          monsterDamageDealt :=
            if chained then monsterDamageDealt (gameStats s) + monsterDamage
            else monsterDamageDealt (gameStats s);
          healingDone := healingDone (gameStats s);
          criticalHits :=
            if isCriticalHit r1 then criticalHits (gameStats s) + 1
            else criticalHits (gameStats s);
          roundsPlayed := roundsPlayed (gameStats s) + 1 |} |}.
Proof.
  intros Hg. unfold attackMonster, monsterAttack, rolledDamage. rewrite Hg.
  cbv zeta.
  destruct (isCriticalHit r1); destruct (0 <? specialAttackCooldown s);
    match goal with |- context [0 <? Z.max ?a 0] =>
      destruct (0 <? Z.max a 0) end;
    destruct s as [? ? ? ? ? ? ? ? ? []]; reflexivity.
Qed.

Lemma commit_specialAttackMonster (s : GameState) (r1 r2 r3 r4 : Q) :
  actionBlocked s = false -> specialAttackAvailable s = true ->
  commit s (specialAttackMonster s r1 r2 r3 r4) =
  let damage :=
    rolledDamage SPECIAL_ATTACK_MIN_DAMAGE SPECIAL_ATTACK_MAX_DAMAGE r1 r2 in
  let newMonsterHealth := Z.max (monsterHealth s - damage) 0 in
  let monsterDamage :=
    rolledDamage MONSTER_ATTACK_MIN_DAMAGE MONSTER_ATTACK_MAX_DAMAGE r3 r4 in
  let chained := 0 <? newMonsterHealth in
  {| playerHealth :=
       if chained then Z.max (playerHealth s - monsterDamage) 0
       else playerHealth s;
     monsterHealth := newMonsterHealth;
     currentRound := currentRound s + 1;
     battleLog :=
       (if chained
        then [createLogAttack false monsterDamage (isCriticalHit r3)] else [])
       ++ createLogAttack true damage (isCriticalHit r1) :: battleLog s;
     gameOver := gameOver s;
     winner := winner s;
     specialAttackAvailable := false;
     specialAttackCooldown := SPECIAL_ATTACK_COOLDOWN;
     lastActionWasCritical := isCriticalHit r1;
     gameStats :=
       {| playerDamageDealt := playerDamageDealt (gameStats s) + damage;
          monsterDamageDealt :=
            if chained then monsterDamageDealt (gameStats s) + monsterDamage
            else monsterDamageDealt (gameStats s);
          healingDone := healingDone (gameStats s);
          criticalHits :=
            if isCriticalHit r1 then criticalHits (gameStats s) + 1
            else criticalHits (gameStats s);
          roundsPlayed := roundsPlayed (gameStats s) + 1 |} |}.
Proof.
  intros Hg Ha.
  unfold specialAttackMonster, monsterAttack, rolledDamage. rewrite Hg, Ha.
  cbv zeta.
  destruct (isCriticalHit r1);
    match goal with |- context [0 <? Z.max ?a 0] =>
      destruct (0 <? Z.max a 0) end;
    destruct s as [? ? ? ? ? ? ? ? ? []]; reflexivity.
Qed.

Lemma healPlayer_queue (s : GameState) (r1 r2 r3 : Q) :
  actionBlocked s = false -> playerHealth s <> 100 ->
  healPlayer s r1 r2 r3 = healOwnQueue s r1 ++ monsterAttack s r2 r3.
Proof.
  intros Hg Hfull. unfold healPlayer, healOwnQueue. rewrite Hg.
  apply Z.eqb_neq in Hfull. rewrite Hfull. cbn [orb]. cbv zeta.
  cbn [app]. rewrite <- app_assoc. reflexivity.
Qed.

Lemma commit_healPlayer (s : GameState) (r1 r2 r3 : Q) :
  actionBlocked s = false -> playerHealth s <> 100 ->
  commit s (healPlayer s r1 r2 r3) =
  let healing := getRandomValue HEAL_MIN_VALUE HEAL_MAX_VALUE r1 in
  let isMaxed := 100 <=? playerHealth s + healing in
  let monsterDamage :=
    rolledDamage MONSTER_ATTACK_MIN_DAMAGE MONSTER_ATTACK_MAX_DAMAGE r2 r3 in
  {| playerHealth := Z.max (playerHealth s - monsterDamage) 0;
     monsterHealth := monsterHealth s;
     currentRound := currentRound s + 1;
     battleLog :=
       createLogAttack false monsterDamage (isCriticalHit r2)
       :: createLogHeal healing isMaxed :: battleLog s;
     gameOver := gameOver s;
     winner := winner s;
     specialAttackAvailable := specialAttackAvailable s;
     specialAttackCooldown :=
       if 0 <? specialAttackCooldown s then specialAttackCooldown s - 1
       else specialAttackCooldown s;
     lastActionWasCritical := lastActionWasCritical s;
     gameStats :=
       {| playerDamageDealt := playerDamageDealt (gameStats s);
          monsterDamageDealt :=
            monsterDamageDealt (gameStats s) + monsterDamage;
          healingDone :=
            healingDone (gameStats s)
            + (if isMaxed then 100 - playerHealth s else healing);
          criticalHits := criticalHits (gameStats s);
          roundsPlayed := roundsPlayed (gameStats s) + 1 |} |}.
Proof.
  intros Hg Hfull. rewrite healPlayer_queue by assumption.
  rewrite commit_app, commit_monsterAttack by assumption.
  unfold healOwnQueue. cbv zeta.
  destruct (0 <? specialAttackCooldown s);
    destruct s as [? ? ? ? ? ? ? ? ? []]; reflexivity.
Qed.

Lemma commit_surrender (s : GameState) :
  gameOver s = false ->
  commit s (surrender s) =
  {| playerHealth := 0;
     monsterHealth := monsterHealth s;
     currentRound := currentRound s;
     battleLog := surrenderEntry :: battleLog s;
     gameOver := true;
     winner := Some monster;
     specialAttackAvailable := specialAttackAvailable s;
     specialAttackCooldown := specialAttackCooldown s;
     lastActionWasCritical := lastActionWasCritical s;
     gameStats := gameStats s |}.
Proof. intros Hg. unfold surrender. rewrite Hg. reflexivity. Qed.

Lemma commit_resetGame (s : GameState) : commit s (resetGame s) = initialState.
Proof. reflexivity. Qed.

(** A blocked handler queues nothing, and the state stays as it is. *)
Lemma blocked_step (s : GameState) (a : Action) :
  handler s a = [] -> step s a = s.
Proof. intros H. unfold step. rewrite H. apply dispatch_nil. Qed.

Lemma actionBlocked_false (s : GameState) :
  actionBlocked s = false <->
  gameOver s = false /\ 0 < playerHealth s /\ 0 < monsterHealth s.
Proof.
  unfold actionBlocked. rewrite !orb_false_iff, !Z.leb_gt. tauto.
Qed.

Lemma actionBlocked_true (s : GameState) :
  actionBlocked s = true <->
  gameOver s = true \/ playerHealth s <= 0 \/ monsterHealth s <= 0.
Proof.
  unfold actionBlocked. rewrite !orb_true_iff, !Z.leb_le. tauto.
Qed.

(** The handlers of the three turn actions queue nothing when blocked. *)
Lemma blocked_handler (s : GameState) (a : Action) :
  actionBlocked s = true ->
  match a with Surrender | Reset => True | _ => handler s a = [] end.
Proof.
  intros H. destruct a; cbn [handler]; trivial;
    unfold attackMonster, specialAttackMonster, healPlayer;
    rewrite H; reflexivity.
Qed.

(** *** Health bounds *)

Lemma commit_healthBounded (q : list Update) :
  Forall healthUpdateOK q ->
  forall s, healthBounded s -> healthBounded (commit s q).
Proof.
  induction 1 as [|u q Hu _ IH]; intros s Hs; [exact Hs|].
  cbn [commit fold_left]. apply IH.
  destruct u; cbn in Hu |- *; unfold healthBounded in *; cbn; tauto.
Qed.

Lemma effects_healthUpdateOK (prev s : GameState) :
  Forall healthUpdateOK (effects prev s).
Proof.
  unfold effects, cooldownEffect, checkForWinner.
  split_ifs; forall_updates.
Qed.

Lemma monsterAttack_healthUpdateOK (s : GameState) (r1 r2 : Q) :
  healthBounded s -> JS.unit_interval r2 ->
  Forall healthUpdateOK (monsterAttack s r1 r2).
Proof.
  intros [Hp _] Hr. unfold monsterAttack.
  destruct (actionBlocked s); [constructor|].
  pose proof (rolledDamage_lower MONSTER_ATTACK_MIN_DAMAGE
                MONSTER_ATTACK_MAX_DAMAGE r1 r2) as Hd.
  unfold rolledDamage, MONSTER_ATTACK_MIN_DAMAGE, MONSTER_ATTACK_MAX_DAMAGE
    in *. cbv zeta in *. specialize (Hd ltac:(lia) ltac:(lia) Hr).
  forall_updates.
Qed.

Lemma handler_healthUpdateOK (s : GameState) (a : Action) :
  healthBounded s -> wellDrawn a -> Forall healthUpdateOK (handler s a).
Proof.
  intros Hs Ha. pose proof Hs as [Hp Hm].
  destruct a as [r1 r2 r3 r4|r1 r2 r3 r4|r1 r2 r3| |];
    cbn [handler wellDrawn] in *.
  - destruct Ha as (_ & H2 & _ & H4).
    pose proof (monsterAttack_healthUpdateOK s r3 r4 Hs H4) as HM.
    pose proof (rolledDamage_lower ATTACK_MIN_DAMAGE ATTACK_MAX_DAMAGE r1 r2)
      as Hd.
    unfold attackMonster, rolledDamage, ATTACK_MIN_DAMAGE, ATTACK_MAX_DAMAGE
      in *.
    cbv zeta in *. specialize (Hd ltac:(lia) ltac:(lia) H2).
    split_ifs; forall_updates; exact HM.
  - destruct Ha as (_ & H2 & _ & H4).
    pose proof (monsterAttack_healthUpdateOK s r3 r4 Hs H4) as HM.
    pose proof (rolledDamage_lower SPECIAL_ATTACK_MIN_DAMAGE
                  SPECIAL_ATTACK_MAX_DAMAGE r1 r2) as Hd.
    unfold specialAttackMonster, rolledDamage, SPECIAL_ATTACK_MIN_DAMAGE,
      SPECIAL_ATTACK_MAX_DAMAGE in *.
    cbv zeta in *. specialize (Hd ltac:(lia) ltac:(lia) H2).
    split_ifs; forall_updates; exact HM.
  - destruct Ha as (H1 & _ & H3).
    pose proof (monsterAttack_healthUpdateOK s r2 r3 Hs H3) as HM.
    pose proof (getRandomValue_range HEAL_MIN_VALUE HEAL_MAX_VALUE r1) as Hd.
    unfold healPlayer, HEAL_MIN_VALUE, HEAL_MAX_VALUE in *.
    specialize (Hd ltac:(lia) H1). cbv zeta.
    split_ifs; forall_updates; exact HM.
  - unfold surrender. destruct (gameOver s); forall_updates.
  - unfold resetGame. forall_updates.
Qed.

(** *** The settled state of each action *)

Lemma step_blocked (s : GameState) (a : Action) :
  actionBlocked s = true ->
  match a with Surrender | Reset => True | _ => step s a = s end.
Proof.
  intros H. pose proof (blocked_handler s a H) as Hq.
  destruct a; trivial; apply blocked_step; exact Hq.
Qed.

Lemma step_consistent (s : GameState) (a : Action) :
  consistent s -> consistent (step s a).
Proof.
  intros Hs.
  destruct a as [r1 r2 r3 r4|r1 r2 r3 r4|r1 r2 r3| |].
  - destruct (actionBlocked s) eqn:Hg.
    + rewrite (step_blocked s (Attack r1 r2 r3 r4) Hg). exact Hs.
    + unfold step, dispatch. cbn [handler].
      rewrite commit_attackMonster, commit_effects by exact Hg.
      apply actionBlocked_false in Hg. destruct Hg as (Hgo & Hp & Hm).
      unfold consistent. cbv zeta.
      cbn [gameOver playerHealth monsterHealth]. rewrite Hgo.
      case_Z; cbn [andb orb]; split; intros; try lia; try congruence;
        try reflexivity.
  - destruct (actionBlocked s) eqn:Hg.
    + rewrite (step_blocked s (SpecialAttack r1 r2 r3 r4) Hg). exact Hs.
    + destruct (specialAttackAvailable s) eqn:Ha.
      * unfold step, dispatch. cbn [handler].
        rewrite commit_specialAttackMonster, commit_effects by assumption.
        apply actionBlocked_false in Hg. destruct Hg as (Hgo & Hp & Hm).
        unfold consistent. cbv zeta.
        cbn [gameOver playerHealth monsterHealth]. rewrite Hgo.
        case_Z; cbn [andb orb]; split; intros; try lia; try congruence;
          try reflexivity.
      * rewrite blocked_step; [exact Hs|].
        cbn [handler]. unfold specialAttackMonster. rewrite Hg, Ha.
        reflexivity.
  - destruct (actionBlocked s) eqn:Hg.
    + rewrite (step_blocked s (Heal r1 r2 r3) Hg). exact Hs.
    + destruct (Z.eq_dec (playerHealth s) 100) as [Hfull|Hfull].
      * rewrite blocked_step; [exact Hs|].
        cbn [handler]. unfold healPlayer. rewrite Hg.
        apply Z.eqb_eq in Hfull. rewrite Hfull. reflexivity.
      * unfold step, dispatch. cbn [handler].
        rewrite commit_healPlayer, commit_effects by assumption.
        apply actionBlocked_false in Hg. destruct Hg as (Hgo & Hp & Hm).
        unfold consistent. cbv zeta.
        cbn [gameOver playerHealth monsterHealth]. rewrite Hgo.
        case_Z; cbn [andb orb]; split; intros; try lia; try congruence;
          try reflexivity.
  - destruct (gameOver s) eqn:Hgo.
    + rewrite blocked_step; [exact Hs|].
      cbn [handler]. unfold surrender. rewrite Hgo. reflexivity.
    + unfold step, dispatch. cbn [handler].
      rewrite commit_surrender, commit_effects by assumption.
      unfold consistent. cbv zeta. cbn [gameOver playerHealth monsterHealth].
      case_Z; cbn [andb orb]; split; intros; try lia; try congruence;
        try reflexivity.
  - unfold step, dispatch. cbn [handler].
    rewrite commit_resetGame, commit_effects.
    unfold consistent, initialState. cbv zeta.
    cbn [gameOver playerHealth monsterHealth].
    case_Z; cbn [andb orb]; split; intros; try lia; try congruence.
Qed.

Lemma step_healthBounded (s : GameState) (a : Action) :
  healthBounded s -> wellDrawn a -> healthBounded (step s a).
Proof.
  intros Hs Ha. unfold step, dispatch.
  apply commit_healthBounded; [apply effects_healthUpdateOK|].
  apply commit_healthBounded; [apply handler_healthUpdateOK|]; assumption.
Qed.

Lemma step_cooldownTracked (s : GameState) (a : Action) :
  cooldownTracked s -> cooldownTracked (step s a).
Proof.
  intros Hs. pose proof Hs as [Hc Hav].
  destruct a as [r1 r2 r3 r4|r1 r2 r3 r4|r1 r2 r3| |].
  - destruct (actionBlocked s) eqn:Hg.
    + rewrite (step_blocked s (Attack r1 r2 r3 r4) Hg). exact Hs.
    + unfold step, dispatch. cbn [handler].
      rewrite commit_attackMonster, commit_effects by exact Hg.
      unfold cooldownTracked. cbv zeta.
      cbn [specialAttackAvailable specialAttackCooldown]. rewrite Hav.
      case_Z; cbn [negb]; split; try lia; try congruence; try reflexivity.
  - destruct (actionBlocked s) eqn:Hg.
    + rewrite (step_blocked s (SpecialAttack r1 r2 r3 r4) Hg). exact Hs.
    + destruct (specialAttackAvailable s) eqn:Ha.
      * unfold step, dispatch. cbn [handler].
        rewrite commit_specialAttackMonster, commit_effects by assumption.
        unfold cooldownTracked, SPECIAL_ATTACK_COOLDOWN. cbv zeta.
        cbn [specialAttackAvailable specialAttackCooldown].
        case_Z; cbn [negb]; split; try lia; try congruence; try reflexivity.
      * rewrite blocked_step; [exact Hs|].
        cbn [handler]. unfold specialAttackMonster. rewrite Hg, Ha.
        reflexivity.
  - destruct (actionBlocked s) eqn:Hg.
    + rewrite (step_blocked s (Heal r1 r2 r3) Hg). exact Hs.
    + destruct (Z.eq_dec (playerHealth s) 100) as [Hfull|Hfull].
      * rewrite blocked_step; [exact Hs|].
        cbn [handler]. unfold healPlayer. rewrite Hg.
        apply Z.eqb_eq in Hfull. rewrite Hfull. reflexivity.
      * unfold step, dispatch. cbn [handler].
        rewrite commit_healPlayer, commit_effects by assumption.
        unfold cooldownTracked. cbv zeta.
        cbn [specialAttackAvailable specialAttackCooldown]. rewrite Hav.
        case_Z; cbn [negb]; split; try lia; try congruence; try reflexivity.
  - destruct (gameOver s) eqn:Hgo.
    + rewrite blocked_step; [exact Hs|].
      cbn [handler]. unfold surrender. rewrite Hgo. reflexivity.
    + unfold step, dispatch. cbn [handler].
      rewrite commit_surrender, commit_effects by assumption.
      unfold cooldownTracked. cbv zeta.
      cbn [specialAttackAvailable specialAttackCooldown]. rewrite Hav.
      case_Z; cbn [negb]; split; try lia; try congruence; try reflexivity.
  - unfold step, dispatch. cbn [handler].
    rewrite commit_resetGame, commit_effects.
    unfold cooldownTracked, initialState. cbv zeta.
    cbn [specialAttackAvailable specialAttackCooldown].
    case_Z; cbn [negb]; split; try lia; try congruence; try reflexivity.
Qed.

(** *** Games from the initial state *)

Lemma play_snoc (s : GameState) (l : list Action) (a : Action) :
  play s (l ++ [a]) = step (play s l) a.
Proof. unfold play. rewrite fold_left_app. reflexivity. Qed.

Lemma play_consistent (l : list Action) : consistent (play initialState l).
Proof.
  induction l as [|a l IH] using rev_ind.
  - unfold consistent. cbn. split; [discriminate | lia].
  - rewrite play_snoc. apply step_consistent, IH.
Qed.

Lemma play_cooldownTracked (l : list Action) :
  cooldownTracked (play initialState l).
Proof.
  induction l as [|a l IH] using rev_ind.
  - unfold cooldownTracked. cbn. split; [lia | reflexivity].
  - rewrite play_snoc. apply step_cooldownTracked, IH.
Qed.

Lemma play_healthBounded (l : list Action) :
  Forall wellDrawn l -> healthBounded (play initialState l).
Proof.
  induction l as [|a l IH] using rev_ind; intros Hl.
  - unfold healthBounded. cbn. lia.
  - rewrite play_snoc. apply Forall_app in Hl. destruct Hl as [Hl Ha].
    apply step_healthBounded; [apply IH, Hl | inversion Ha; assumption].
Qed.

(** The settled state of [surrender()] in a game that is not over. *)
Lemma step_Surrender (s : GameState) :
  gameOver s = false ->
  step s Surrender =
  {| playerHealth := 0;
     monsterHealth := monsterHealth s;
     currentRound := currentRound s;
     battleLog := surrenderEntry :: battleLog s;
     gameOver := true;
     winner :=
       if playerHealth s =? 0 then Some monster
       else if monsterHealth s <=? 0 then Some draw else Some monster;
     specialAttackAvailable := specialAttackAvailable s;
     specialAttackCooldown := specialAttackCooldown s;
     lastActionWasCritical := lastActionWasCritical s;
     gameStats := gameStats s |}.
Proof.
  intros Hgo. unfold step, dispatch. cbn [handler].
  rewrite commit_surrender, commit_effects by exact Hgo.
  cbv zeta.
  cbn [playerHealth monsterHealth gameOver winner specialAttackCooldown
       specialAttackAvailable currentRound battleLog lastActionWasCritical
       gameStats].
  rewrite Z.eqb_refl.
  case_Z; cbn [andb orb]; try reflexivity; lia.
Qed.

Lemma step_Surrender_over (s : GameState) :
  gameOver s = true -> step s Surrender = s.
Proof.
  intros Hgo. apply blocked_step. cbn [handler]. unfold surrender.
  rewrite Hgo. reflexivity.
Qed.

(** *** The monster's turn *)

Lemma chainedAfterHit_intro (s s' : GameState) (damage : Z) (critical : bool)
  (r3 r4 : Q) :
  let newMonsterHealth := Z.max (monsterHealth s - damage) 0 in
  let monsterDamage :=
    rolledDamage MONSTER_ATTACK_MIN_DAMAGE MONSTER_ATTACK_MAX_DAMAGE r3 r4 in
  monsterHealth s' = newMonsterHealth ->
  (0 < newMonsterHealth ->
   battleLog s'
   = createLogAttack false monsterDamage (isCriticalHit r3)
     :: createLogAttack true damage critical :: battleLog s
   /\ playerHealth s' = Z.max (playerHealth s - monsterDamage) 0
   /\ monsterDamageDealt (gameStats s')
      = monsterDamageDealt (gameStats s) + monsterDamage) ->
  (newMonsterHealth <= 0 ->
   battleLog s' = createLogAttack true damage critical :: battleLog s
   /\ playerHealth s' = playerHealth s
   /\ monsterDamageDealt (gameStats s') = monsterDamageDealt (gameStats s)
   /\ winner s' = Some player
   /\ gameOver s' = true) ->
  chainedAfterHit s s' damage critical r3 r4.
Proof.
  cbv zeta. intros Hm Hsurv Hdead. unfold chainedAfterHit. cbv zeta.
  split; [exact Hm | split; [exact Hsurv | split; [exact Hdead | split]]].
  - intros (e & He & Hp).
    destruct (Z.lt_ge_cases 0 (Z.max (monsterHealth s - damage) 0))
      as [Hlt|Hge]; [exact Hlt|].
    destruct (Hdead Hge) as (Hlog & _). rewrite Hlog in He.
    cbn in He. injection He as <-. discriminate Hp.
  - intros Hlt. destruct (Hsurv Hlt) as (Hlog & _). rewrite Hlog.
    eexists. split; reflexivity.
Qed.

(** ** Log entries *)

Lemma endsWith_refl (s : string) : endsWith s s = true.
Proof.
  destruct s; cbn [endsWith]; rewrite String.eqb_refl; reflexivity.
Qed.

Lemma endsWith_append (suffix a b : string) :
  endsWith suffix b = true -> endsWith suffix (a ++ b) = true.
Proof.
  intros H. induction a as [|c a IH]; cbn; [exact H|].
  rewrite IH. apply orb_true_r.
Qed.

Lemma lastChar_append (a b : string) :
  lastChar (a ++ b)
  = match lastChar b with None => lastChar a | Some c => Some c end.
Proof.
  induction a as [|c a IH]; cbn.
  - destruct (lastChar b); reflexivity.
  - rewrite IH. destruct (lastChar b); [reflexivity|].
    destruct (lastChar a); reflexivity.
Qed.

Lemma endsWith_lastChar (suffix s : string) :
  endsWith suffix s = true -> lastChar suffix <> None ->
  lastChar s = lastChar suffix.
Proof.
  intros H Hne. induction s as [|c s IH].
  - cbn in H. apply String.eqb_eq in H. subst suffix. contradiction.
  - cbn [endsWith] in H. apply orb_true_iff in H. destruct H as [H|H].
    + apply String.eqb_eq in H. subst suffix. reflexivity.
    + specialize (IH H). cbn [lastChar]. rewrite IH.
      destruct (lastChar suffix); [reflexivity | contradiction].
Qed.

Lemma capped_createLogHeal (healing : Z) (isMaxed : bool) :
  capped (createLogHeal healing isMaxed) = isMaxed.
Proof.
  unfold capped, createLogHeal. cbn [text]. destruct isMaxed.
  - apply (endsWith_append _ " heals ").
    apply endsWith_append, (endsWith_append _ " life points").
    apply endsWith_refl.
  - destruct (endsWith " (MAX HEALTH!)"
                (" heals " ++ JS.toString healing ++ " life points" ++ ""))
      eqn:E; [|reflexivity].
    apply endsWith_lastChar in E; [|discriminate].
    rewrite !lastChar_append in E. discriminate E.
Qed.

(** ** Scenarios *)

(** From 100/100, a non-critical attack that rolls 8, answered by a
    non-critical counter-attack that rolls 8. *)
Example attack_scenario :
  let s' := step initialState (Attack (1#2) (1#2) (1#2) 0) in
  monsterHealth s' = 92 /\ playerHealth s' = 92 /\ currentRound s' = 1
  /\ battleLog s'
     = [createLogAttack false 8 false; createLogAttack true 8 false]
  /\ gameOver s' = false.
Proof. vm_compute. repeat split. Qed.

(** A special attack, then three attacks: the cooldown goes 3, 2, 1, 0 and
    the special attack is available again after the third. *)
Example cooldown_scenario :
  let special := SpecialAttack (1#2) 0 (1#2) 0 in
  let attack := Attack (1#2) 0 (1#2) 0 in
  map (fun l => (specialAttackCooldown (play initialState l),
                 specialAttackAvailable (play initialState l)))
      [[special]; [special; attack]; [special; attack; attack];
       [special; attack; attack; attack]]
  = [(3, false); (2, false); (1, false); (0, true)].
Proof. vm_compute. reflexivity. Qed.

(** * The claims *)

(** C4.  [checkForWinner] decides from the two healths alone: the queue it
    builds is the same in any two renders with the same healths; both healths
    at or below 0 give a draw, the monster's alone gives the player, the
    player's alone gives the monster, and each of the three sets [gameOver];
    with both healths above 0 nothing is queued and the state, [winner]
    included, stays as it is. *)
Theorem checkForWinner_by_healths (s : GameState) :
  let s' := commit s (checkForWinner s) in
  (forall t : GameState,
      playerHealth t = playerHealth s -> monsterHealth t = monsterHealth s ->
      checkForWinner t = checkForWinner s)
  /\ (monsterHealth s <= 0 -> playerHealth s <= 0 ->
      winner s' = Some draw /\ gameOver s' = true)
  /\ (monsterHealth s <= 0 -> 0 < playerHealth s ->
      winner s' = Some player /\ gameOver s' = true)
  /\ (0 < monsterHealth s -> playerHealth s <= 0 ->
      winner s' = Some monster /\ gameOver s' = true)
  /\ (0 < monsterHealth s -> 0 < playerHealth s ->
      checkForWinner s = [] /\ s' = s).
Proof.
  cbv zeta. unfold checkForWinner. split.
  - intros t Hp Hm. rewrite Hp, Hm. reflexivity.
  - case_Z; cbn [andb]; repeat split; intros; try lia; reflexivity.
Qed.

Lemma checkForWinner_by_healths_witness :
  (let s := battle 0 0 in
   winner (commit s (checkForWinner s)) = Some draw
   /\ gameOver (commit s (checkForWinner s)) = true)
  /\ (let s := battle 7 0 in
      winner (commit s (checkForWinner s)) = Some player
      /\ gameOver (commit s (checkForWinner s)) = true)
  /\ (let s := battle 0 7 in
      winner (commit s (checkForWinner s)) = Some monster
      /\ gameOver (commit s (checkForWinner s)) = true)
  /\ (let s := battle 7 7 in
      checkForWinner s = [] /\ commit s (checkForWinner s) = s).
Proof.
  cbv zeta.
  destruct (checkForWinner_by_healths (battle 0 0)) as (_ & Hdraw & _).
  destruct (checkForWinner_by_healths (battle 7 0)) as (_ & _ & Hplayer & _).
  destruct (checkForWinner_by_healths (battle 0 7))
    as (_ & _ & _ & Hmonster & _).
  destruct (checkForWinner_by_healths (battle 7 7)) as (_ & _ & _ & _ & Hnone).
  split; [apply Hdraw; cbn; lia|].
  split; [apply Hplayer; cbn; lia|].
  split; [apply Hmonster; cbn; lia|].
  apply Hnone; cbn; lia.
Defined.

(** C2.  With both healths in [0, 100] and the draws in [0, 1), every value
    an action writes to a health is in [0, 100]: that holds for each update
    the handler queues, for the updates of [monsterAttack] on its own, for
    the state once the queue is processed, and for the settled state. *)
Theorem health_clamped (s : GameState) (a : Action) :
  healthBounded s -> wellDrawn a ->
  Forall healthUpdateOK (handler s a)
  /\ (forall r1 r2 : Q, JS.unit_interval r2 ->
      Forall healthUpdateOK (monsterAttack s r1 r2)
      /\ healthBounded (commit s (monsterAttack s r1 r2)))
  /\ (0 <= playerHealth (step s a) <= 100)
  /\ (0 <= monsterHealth (step s a) <= 100).
Proof.
  intros Hs Ha. split; [apply handler_healthUpdateOK; assumption|].
  split.
  - intros r1 r2 Hr.
    pose proof (monsterAttack_healthUpdateOK s r1 r2 Hs Hr) as HM.
    split; [exact HM | apply commit_healthBounded; assumption].
  - apply (step_healthBounded s a Hs Ha).
Qed.

Lemma health_clamped_witness :
  0 <= playerHealth (step (battle 3 100) (Attack (1#2) 0 0 (9#10))) <= 100
  /\ 0 <= monsterHealth (step (battle 100 4) (SpecialAttack 0 (9#10) 0 0))
     <= 100.
Proof.
  split.
  - apply (health_clamped (battle 3 100) (Attack (1#2) 0 0 (9#10)));
      vm_compute; intuition discriminate.
  - apply (health_clamped (battle 100 4) (SpecialAttack 0 (9#10) 0 0));
      vm_compute; intuition discriminate.
Defined.

(** C3.  In a game from the initial state, once any action is complete (its
    queue processed and the winner check of the following render applied),
    [gameOver] is true if and only if a health is at or below 0. *)
Theorem gameOver_iff_health_depleted (l : list Action) (a : Action) :
  let s' := step (play initialState l) a in
  gameOver s' = true <-> (playerHealth s' <= 0 \/ monsterHealth s' <= 0).
Proof.
  cbv zeta. apply (step_consistent (play initialState l) a).
  apply play_consistent.
Qed.

Lemma gameOver_iff_health_depleted_witness :
  let s' := step (play initialState [Attack (1#2) 0 (1#2) 0]) Surrender in
  gameOver s' = true /\ playerHealth s' = 0 /\ monsterHealth s' = 95.
Proof.
  cbv zeta. split; [|split; reflexivity].
  apply (gameOver_iff_health_depleted [Attack (1#2) 0 (1#2) 0] Surrender).
  left. vm_compute. discriminate.
Defined.

(** C8.  In a render where [gameOver] is false, [surrender()] queues player
    health 0, winner monster, game over and the surrender entry, whatever
    the healths are; once the action is complete, in a state where the game
    is over exactly when a health is used up (every state of a game is one),
    the player's health is 0, the winner is the monster, the game is over,
    the log has grown by the surrender entry alone, and the monster has
    dealt no damage.  In a render where [gameOver] is true, [surrender()]
    queues nothing and the state stays as it is. *)
Theorem surrender_forces_defeat (s : GameState) :
  (gameOver s = false ->
   let s1 := commit s (surrender s) in
   playerHealth s1 = 0 /\ winner s1 = Some monster /\ gameOver s1 = true
   /\ battleLog s1 = surrenderEntry :: battleLog s)
  /\ (gameOver s = false -> consistent s ->
      let s' := step s Surrender in
      playerHealth s' = 0 /\ winner s' = Some monster /\ gameOver s' = true
      /\ battleLog s' = surrenderEntry :: battleLog s
      /\ monsterDamageDealt (gameStats s') = monsterDamageDealt (gameStats s))
  /\ (gameOver s = true -> surrender s = [] /\ step s Surrender = s).
Proof.
  split; [|split].
  - intros Hgo. cbv zeta. rewrite commit_surrender by exact Hgo.
    cbn. repeat split.
  - intros Hgo Hs. cbv zeta. rewrite step_Surrender by exact Hgo.
    cbn [playerHealth winner gameOver battleLog gameStats].
    repeat split.
    unfold consistent in Hs. rewrite Hgo in Hs.
    case_Z; try reflexivity.
    exfalso. assert (false = true) by (apply Hs; lia). discriminate.
  - intros Hgo. split; [|apply step_Surrender_over; exact Hgo].
    unfold surrender. rewrite Hgo. reflexivity.
Qed.

Lemma surrender_forces_defeat_witness :
  (let s' := step (battle 100 1) Surrender in
   playerHealth s' = 0 /\ winner s' = Some monster /\ gameOver s' = true
   /\ battleLog s' = [surrenderEntry]
   /\ monsterDamageDealt (gameStats s') = 0)
  /\ step (step (battle 100 1) Surrender) Surrender
     = step (battle 100 1) Surrender.
Proof.
  split.
  - destruct (surrender_forces_defeat (battle 100 1)) as (_ & H & _).
    apply H; [reflexivity|]. unfold consistent. cbn. split; [discriminate|lia].
  - destruct (surrender_forces_defeat (step (battle 100 1) Surrender))
      as (_ & _ & H).
    apply H. reflexivity.
Defined.

(** C10.  [surrender()] leaves the monster's health, the round counter, the
    cooldown and its availability flag, the critical flag and every
    statistic as they were, in every state. *)
Theorem surrender_frame (s : GameState) :
  let s' := step s Surrender in
  monsterHealth s' = monsterHealth s
  /\ currentRound s' = currentRound s
  /\ specialAttackCooldown s' = specialAttackCooldown s
  /\ specialAttackAvailable s' = specialAttackAvailable s
  /\ lastActionWasCritical s' = lastActionWasCritical s
  /\ gameStats s' = gameStats s.
Proof.
  cbv zeta. destruct (gameOver s) eqn:Hgo.
  - rewrite step_Surrender_over by exact Hgo. repeat split.
  - rewrite step_Surrender by exact Hgo. cbn. repeat split.
Qed.

(** C9.  [attack()], [specialAttack()] and [heal()] queue nothing and leave
    the state as it is when [gameOver] is true or a health is at or below 0;
    so does [heal()] at player health 100, and so does [specialAttack()]
    while the cooldown is above 0, the availability flag following the
    cooldown as it does in every state of a game.  The handlers are total
    functions: there is no error to raise. *)
Theorem invalid_actions_are_noops (s : GameState) (r1 r2 r3 r4 : Q) :
  (gameOver s = true \/ playerHealth s <= 0 \/ monsterHealth s <= 0 ->
   (attackMonster s r1 r2 r3 r4 = [] /\ step s (Attack r1 r2 r3 r4) = s)
   /\ (specialAttackMonster s r1 r2 r3 r4 = []
       /\ step s (SpecialAttack r1 r2 r3 r4) = s)
   /\ (healPlayer s r1 r2 r3 = [] /\ step s (Heal r1 r2 r3) = s))
  /\ (playerHealth s = 100 ->
      healPlayer s r1 r2 r3 = [] /\ step s (Heal r1 r2 r3) = s)
  /\ (cooldownTracked s -> 0 < specialAttackCooldown s ->
      specialAttackMonster s r1 r2 r3 r4 = []
      /\ step s (SpecialAttack r1 r2 r3 r4) = s).
Proof.
  split; [|split].
  - intros H. apply actionBlocked_true in H.
    pose proof (blocked_handler s (Attack r1 r2 r3 r4) H) as HA.
    pose proof (blocked_handler s (SpecialAttack r1 r2 r3 r4) H) as HS.
    pose proof (blocked_handler s (Heal r1 r2 r3) H) as HH.
    cbn [handler] in HA, HS, HH.
    repeat split; try assumption; apply blocked_step; assumption.
  - intros Hfull.
    assert (Hq : healPlayer s r1 r2 r3 = []).
    { unfold healPlayer. apply Z.eqb_eq in Hfull. rewrite Hfull.
      rewrite orb_true_r. reflexivity. }
    split; [exact Hq | apply blocked_step; exact Hq].
  - intros [_ Hav] Hcd.
    assert (Hq : specialAttackMonster s r1 r2 r3 r4 = []).
    { unfold specialAttackMonster. rewrite Hav.
      replace (specialAttackCooldown s =? 0) with false
        by (symmetry; apply Z.eqb_neq; lia).
      rewrite orb_true_r. reflexivity. }
    split; [exact Hq | apply blocked_step; exact Hq].
Qed.

Lemma invalid_actions_are_noops_witness :
  step (step (battle 100 1) Surrender) (Attack 0 0 0 0)
  = step (battle 100 1) Surrender
  /\ step initialState (Heal 0 0 0) = initialState
  /\ (let s := step initialState (SpecialAttack (1#2) 0 (1#2) 0) in
      step s (SpecialAttack 0 0 0 0) = s).
Proof.
  split; [|split].
  - destruct (invalid_actions_are_noops (step (battle 100 1) Surrender)
                0 0 0 0) as (H & _).
    destruct H as ((_ & H) & _); [left; vm_compute; reflexivity|].
    exact H.
  - destruct (invalid_actions_are_noops initialState 0 0 0 0)
      as (_ & H & _).
    destruct H as (_ & H); [reflexivity|]. exact H.
  - cbv zeta.
    destruct (invalid_actions_are_noops
                (step initialState (SpecialAttack (1#2) 0 (1#2) 0)) 0 0 0 0)
      as (_ & _ & H).
    destruct H as (_ & H); [|vm_compute; reflexivity|exact H].
    unfold cooldownTracked. vm_compute. split; [discriminate|reflexivity].
Defined.

(** C6.  In a state where the availability flag follows the cooldown (every
    state of a game is one): [specialAttack()] changes nothing while the
    cooldown is above 0; a special attack that runs leaves the cooldown at
    3, in the processed queue and in the settled state; an attack or a heal
    that runs takes exactly 1 off a positive cooldown and leaves a cooldown
    of 0 at 0; and after any action the special attack is available exactly
    when the cooldown is 0. *)
Theorem special_attack_cooldown (s : GameState) (r1 r2 r3 r4 : Q) :
  cooldownTracked s ->
  (0 < specialAttackCooldown s -> step s (SpecialAttack r1 r2 r3 r4) = s)
  /\ (inProgress s -> specialAttackCooldown s = 0 ->
      let s' := step s (SpecialAttack r1 r2 r3 r4) in
      specialAttackCooldown (commit s (specialAttackMonster s r1 r2 r3 r4))
      = 3
      /\ specialAttackCooldown s' = 3
      /\ specialAttackAvailable s' = false
      /\ currentRound s' = currentRound s + 1)
  /\ (inProgress s ->
      let s' := step s (Attack r1 r2 r3 r4) in
      (0 < specialAttackCooldown s ->
       specialAttackCooldown s' = specialAttackCooldown s - 1)
      /\ (specialAttackCooldown s = 0 -> specialAttackCooldown s' = 0))
  /\ (inProgress s -> playerHealth s <> 100 ->
      let s' := step s (Heal r1 r2 r3) in
      (0 < specialAttackCooldown s ->
       specialAttackCooldown s' = specialAttackCooldown s - 1)
      /\ (specialAttackCooldown s = 0 -> specialAttackCooldown s' = 0))
  /\ (forall a : Action,
      let s' := step s a in
      0 <= specialAttackCooldown s'
      /\ (specialAttackAvailable s' = true <-> specialAttackCooldown s' = 0)).
Proof.
  intros Hs. pose proof Hs as [Hc Hav].
  split; [|split; [|split; [|split]]].
  - intros Hpos. apply blocked_step. cbn [handler].
    unfold specialAttackMonster. rewrite Hav.
    replace (specialAttackCooldown s =? 0) with false
      by (symmetry; apply Z.eqb_neq; lia).
    rewrite orb_true_r. reflexivity.
  - intros Hin Hzero. apply actionBlocked_false in Hin.
    assert (Ha : specialAttackAvailable s = true)
      by (rewrite Hav; apply Z.eqb_eq; exact Hzero).
    unfold step, dispatch. cbn [handler].
    rewrite commit_specialAttackMonster, commit_effects by assumption.
    settled_fields. unfold SPECIAL_ATTACK_COOLDOWN. rewrite Hzero.
    cbn. repeat split.
  - intros Hin. apply actionBlocked_false in Hin.
    unfold step, dispatch. cbn [handler].
    rewrite commit_attackMonster, commit_effects by assumption.
    settled_fields. case_Z; split; intros; lia.
  - intros Hin Hfull. apply actionBlocked_false in Hin.
    unfold step, dispatch. cbn [handler].
    rewrite commit_healPlayer, commit_effects by assumption.
    settled_fields. case_Z; split; intros; lia.
  - intros a. cbv zeta.
    destruct (step_cooldownTracked s a Hs) as [Hc' Hav'].
    split; [exact Hc'|]. rewrite Hav'. apply Z.eqb_eq.
Qed.

Lemma special_attack_cooldown_witness :
  let special := SpecialAttack (1#2) 0 (1#2) 0 in
  let attack := Attack (1#2) 0 (1#2) 0 in
  let s1 := step initialState special in
  specialAttackCooldown s1 = 3
  /\ step s1 special = s1
  /\ specialAttackCooldown (step s1 attack) = 3 - 1
  /\ (specialAttackAvailable (step s1 attack) = true <->
      specialAttackCooldown (step s1 attack) = 0).
Proof.
  cbv zeta.
  assert (H0 : cooldownTracked initialState)
    by (unfold cooldownTracked; vm_compute; split;
        [discriminate | reflexivity]).
  assert (H1 : cooldownTracked
                 (step initialState (SpecialAttack (1#2) 0 (1#2) 0)))
    by (unfold cooldownTracked; vm_compute; split;
        [discriminate | reflexivity]).
  destruct (special_attack_cooldown initialState (1#2) 0 (1#2) 0 H0)
    as (_ & Hset & _).
  destruct (special_attack_cooldown
              (step initialState (SpecialAttack (1#2) 0 (1#2) 0))
              (1#2) 0 (1#2) 0 H1) as (Hnoop & _ & Hdec & _ & Hiff).
  split; [|split; [|split]].
  - apply Hset; [|reflexivity].
    unfold inProgress. vm_compute. repeat split.
  - apply Hnoop. vm_compute. reflexivity.
  - apply Hdec; [|vm_compute; reflexivity].
    unfold inProgress. vm_compute. repeat split.
  - apply (Hiff (Attack (1#2) 0 (1#2) 0)).
Defined.

(** C5.  An attack or a special attack that runs is followed by the
    monster's counter-attack exactly when the monster's health after the
    hit is above 0: then the monster's entry is put on the log above the
    player's, the player takes the monster's damage and the damage is
    counted; after a lethal hit the log gets the player's entry alone, the
    player's health and the monster's damage count stay, the winner is the
    player and the game is over.  A heal that runs is always followed by
    the counter-attack: its entry is put on the log above the heal's and
    its damage is counted. *)
Theorem turn_chaining (s : GameState) (r1 r2 r3 r4 : Q) :
  inProgress s ->
  chainedAfterHit s (step s (Attack r1 r2 r3 r4))
    (rolledDamage ATTACK_MIN_DAMAGE ATTACK_MAX_DAMAGE r1 r2)
    (isCriticalHit r1) r3 r4
  /\ (specialAttackAvailable s = true ->
      chainedAfterHit s (step s (SpecialAttack r1 r2 r3 r4))
        (rolledDamage SPECIAL_ATTACK_MIN_DAMAGE SPECIAL_ATTACK_MAX_DAMAGE
           r1 r2)
        (isCriticalHit r1) r3 r4)
  /\ (playerHealth s <> 100 ->
      let s' := step s (Heal r1 r2 r3) in
      let healing := getRandomValue HEAL_MIN_VALUE HEAL_MAX_VALUE r1 in
      let monsterDamage :=
        rolledDamage MONSTER_ATTACK_MIN_DAMAGE MONSTER_ATTACK_MAX_DAMAGE
          r2 r3 in
      monsterAttack s r2 r3 <> []
      /\ healPlayer s r1 r2 r3 = healOwnQueue s r1 ++ monsterAttack s r2 r3
      /\ battleLog s'
         = createLogAttack false monsterDamage (isCriticalHit r2)
           :: createLogHeal healing (100 <=? playerHealth s + healing)
           :: battleLog s
      /\ monsterDamageDealt (gameStats s')
         = monsterDamageDealt (gameStats s) + monsterDamage).
Proof.
  intros Hin. pose proof Hin as (Hgo & Hp & Hm).
  apply actionBlocked_false in Hin.
  split; [|split].
  - unfold step, dispatch. cbn [handler].
    rewrite commit_attackMonster, commit_effects by assumption.
    apply chainedAfterHit_intro; settled_fields; [reflexivity| |].
    + intros Hlt. apply Z.ltb_lt in Hlt. rewrite Hlt. cbn [app].
      repeat split.
    + intros Hle. pose proof Hle as Hle'. apply Z.ltb_ge in Hle'.
      rewrite Hle'. cbn [app]. rewrite Hgo.
      case_Z; cbn [andb orb]; repeat split; try lia.
  - intros Ha. unfold step, dispatch. cbn [handler].
    rewrite commit_specialAttackMonster, commit_effects by assumption.
    apply chainedAfterHit_intro; settled_fields; [reflexivity| |].
    + intros Hlt. apply Z.ltb_lt in Hlt. rewrite Hlt. cbn [app].
      repeat split.
    + intros Hle. pose proof Hle as Hle'. apply Z.ltb_ge in Hle'.
      rewrite Hle'. cbn [app]. rewrite Hgo.
      case_Z; cbn [andb orb]; repeat split; try lia.
  - intros Hfull. cbv zeta.
    split; [|split; [apply healPlayer_queue; assumption|]].
    + unfold monsterAttack. rewrite Hin. discriminate.
    + unfold step, dispatch. cbn [handler].
      rewrite commit_healPlayer, commit_effects by assumption.
      settled_fields. split; reflexivity.
Qed.

Lemma turn_chaining_witness :
  let s := battle 5 5 in
  let s' := step s (Attack (1#2) 0 0 0) in
  inProgress s
  /\ monsterHealth s' = 0
  /\ battleLog s'
     = createLogAttack true
         (rolledDamage ATTACK_MIN_DAMAGE ATTACK_MAX_DAMAGE (1#2) 0)
         (isCriticalHit (1#2)) :: battleLog s
  /\ playerHealth s' = 5
  /\ winner s' = Some player
  /\ gameOver s' = true.
Proof.
  cbv zeta.
  assert (Hin : inProgress (battle 5 5))
    by (unfold inProgress; vm_compute; repeat split).
  split; [exact Hin|].
  destruct (turn_chaining (battle 5 5) (1#2) 0 0 0 Hin) as (Hatk & _).
  destruct Hatk as (Hm & _ & Hdead & _).
  split; [rewrite Hm; vm_compute; reflexivity|].
  destruct Hdead as (Hlog & Hp & _ & Hw & Hgo);
    [vm_compute; discriminate|].
  split; [exact Hlog|]. split; [exact Hp|]. split; assumption.
Defined.

(** C7, as the claim has it, in the state after a first exchange of blows
    that leaves the player at 90: a heal that rolls 10 reaches the ceiling
    without exceeding it, and its entry is marked. *)
Lemma heal_capped_at_exact_ceiling :
  let s := step initialState (Attack (1#2) 0 (1#2) (2#7)) in
  let healing := getRandomValue HEAL_MIN_VALUE HEAL_MAX_VALUE (1#6) in
  let s' := step s (Heal (1#6) (1#2) 0) in
  playerHealth s = 90 /\ healing = 10
  /\ exists e : LogEntry,
       nth_error (battleLog s') 1 = Some e
       /\ e = createLogHeal healing true
       /\ ~ (capped e = true <-> 100 < playerHealth s + healing).
Proof.
  cbv zeta. split; [reflexivity|]. split; [reflexivity|].
  eexists. split; [vm_compute; reflexivity|]. split; [reflexivity|].
  intros [H _]. assert (Hlt : 100 < 100) by (apply H; reflexivity).
  lia.
Qed.

(** C7.  A heal that runs puts its entry on the log, below the entry of the
    counter-attack; the entry is marked as capped exactly when the player's
    health plus the roll is at least 100, and [healingDone] grows by the
    healing the heal applies, the difference between the health it writes
    and the health before: [100 - playerHealth] when the entry is marked,
    the roll otherwise. *)
Theorem heal_capped_accounting (s : GameState) (r1 r2 r3 : Q) :
  inProgress s -> playerHealth s <> 100 ->
  let healing := getRandomValue HEAL_MIN_VALUE HEAL_MAX_VALUE r1 in
  let s' := step s (Heal r1 r2 r3) in
  exists m e : LogEntry,
    battleLog s' = m :: e :: battleLog s
    /\ isPlayer m = false
    /\ e = createLogHeal healing (100 <=? playerHealth s + healing)
    /\ (capped e = true <-> 100 <= playerHealth s + healing)
    /\ In (setPlayerHealth (Z.min (playerHealth s + healing) 100))
         (healPlayer s r1 r2 r3)
    /\ healingDone (gameStats s')
       = healingDone (gameStats s)
         + (Z.min (playerHealth s + healing) 100 - playerHealth s)
    /\ Z.min (playerHealth s + healing) 100 - playerHealth s
       = (if capped e then 100 - playerHealth s else healing).
Proof.
  intros Hin Hfull. cbv zeta. apply actionBlocked_false in Hin.
  unfold step, dispatch. cbn [handler].
  rewrite commit_healPlayer, commit_effects by assumption.
  settled_fields. do 2 eexists.
  split; [reflexivity|]. split; [reflexivity|]. split; [reflexivity|].
  rewrite capped_createLogHeal.
  split; [apply Z.leb_le|].
  split.
  - rewrite healPlayer_queue by assumption. apply in_or_app. left.
    unfold healOwnQueue. cbv zeta. right. left. reflexivity.
  - case_Z; split; lia.
Qed.

Lemma heal_capped_accounting_witness :
  let s := battle 95 100 in
  let healing := getRandomValue HEAL_MIN_VALUE HEAL_MAX_VALUE (1#3) in
  let s' := step s (Heal (1#3) (1#2) 0) in
  inProgress s /\ playerHealth s <> 100
  /\ healing = 12
  /\ exists m e : LogEntry,
       battleLog s' = m :: e :: battleLog s
       /\ isPlayer m = false
       /\ e = createLogHeal healing (100 <=? playerHealth s + healing)
       /\ (capped e = true <-> 100 <= playerHealth s + healing)
       /\ In (setPlayerHealth (Z.min (playerHealth s + healing) 100))
            (healPlayer s (1#3) (1#2) 0)
       /\ healingDone (gameStats s')
          = healingDone (gameStats s)
            + (Z.min (playerHealth s + healing) 100 - playerHealth s)
       /\ Z.min (playerHealth s + healing) 100 - playerHealth s
          = (if capped e then 100 - playerHealth s else healing).
Proof.
  cbv zeta.
  assert (Hin : inProgress (battle 95 100))
    by (unfold inProgress; vm_compute; repeat split).
  assert (Hfull : playerHealth (battle 95 100) <> 100)
    by (vm_compute; discriminate).
  split; [exact Hin|]. split; [exact Hfull|]. split; [reflexivity|].
  exact (heal_capped_accounting (battle 95 100) (1#3) (1#2) 0 Hin Hfull).
Defined.

(** C1, as the claim has it, in the state after a first exchange of blows
    (player 92, monster 95): a heal that rolls 8, followed by a
    counter-attack of 14, leaves the player at 78. *)
Lemma heal_then_counterattack_lowers_health :
  let s := step initialState (Attack (1#2) 0 (1#2) 0) in
  let a := Heal 0 (1#2) (6#7) in
  (0 < playerHealth s < 100 /\ 0 < monsterHealth s /\ gameOver s = false)
  /\ wellDrawn a
  /\ playerHealth s = 92
  /\ playerHealth (step s a) = 78
  /\ ~ (playerHealth s < playerHealth (step s a)).
Proof.
  cbv zeta. split; [|split; [|split; [|split]]].
  - vm_compute. intuition discriminate.
  - vm_compute. intuition discriminate.
  - reflexivity.
  - reflexivity.
  - vm_compute. intros H. discriminate H.
Qed.

(** C1, amended.  At player health 100 [heal()] queues nothing and the state
    stays as it is.  With the player's health in (0, 100), the monster's
    above 0 and the game not over, the queue of [heal()] is the heal's own
    updates followed by those of the counter-attack; the heal's own updates
    raise the player's health strictly, to 100 at most, and the player's
    health is 100 at most once the action is complete. *)
Theorem heal_application_raises_health (s : GameState) (r1 r2 r3 : Q) :
  (playerHealth s = 100 ->
   healPlayer s r1 r2 r3 = [] /\ step s (Heal r1 r2 r3) = s)
  /\ (0 < playerHealth s < 100 -> 0 < monsterHealth s -> gameOver s = false ->
      JS.unit_interval r1 -> JS.unit_interval r3 ->
      exists own : list Update,
        healPlayer s r1 r2 r3 = own ++ monsterAttack s r2 r3
        /\ playerHealth s < playerHealth (commit s own) <= 100
        /\ playerHealth (step s (Heal r1 r2 r3)) <= 100).
Proof.
  split.
  - intros Hfull.
    assert (Hq : healPlayer s r1 r2 r3 = []).
    { unfold healPlayer. apply Z.eqb_eq in Hfull. rewrite Hfull.
      rewrite orb_true_r. reflexivity. }
    split; [exact Hq | apply blocked_step; exact Hq].
  - intros Hp Hm Hgo H1 H3.
    assert (Hin : actionBlocked s = false)
      by (apply actionBlocked_false; repeat split; [assumption|lia..]).
    assert (Hfull : playerHealth s <> 100) by lia.
    exists (healOwnQueue s r1).
    split; [apply healPlayer_queue; assumption|].
    pose proof (getRandomValue_range HEAL_MIN_VALUE HEAL_MAX_VALUE r1) as Hh.
    pose proof (rolledDamage_lower MONSTER_ATTACK_MIN_DAMAGE
                  MONSTER_ATTACK_MAX_DAMAGE r2 r3) as Hd.
    unfold HEAL_MIN_VALUE, HEAL_MAX_VALUE, MONSTER_ATTACK_MIN_DAMAGE,
      MONSTER_ATTACK_MAX_DAMAGE in *.
    specialize (Hh ltac:(lia) H1). specialize (Hd ltac:(lia) ltac:(lia) H3).
    split.
    + unfold healOwnQueue, HEAL_MIN_VALUE, HEAL_MAX_VALUE. cbv zeta.
      destruct (0 <? specialAttackCooldown s); cbn; lia.
    + unfold step, dispatch. cbn [handler].
      rewrite commit_healPlayer, commit_effects by assumption.
      settled_fields.
      unfold MONSTER_ATTACK_MIN_DAMAGE, MONSTER_ATTACK_MAX_DAMAGE. lia.
Qed.

Lemma heal_application_raises_health_witness :
  let s := step initialState (Attack (1#2) 0 (1#2) 0) in
  step initialState (Heal 0 (1#2) (6#7)) = initialState
  /\ exists own : list Update,
       healPlayer s 0 (1#2) (6#7) = own ++ monsterAttack s (1#2) (6#7)
       /\ playerHealth s < playerHealth (commit s own) <= 100
       /\ playerHealth (step s (Heal 0 (1#2) (6#7))) <= 100.
Proof.
  cbv zeta. split.
  - destruct (heal_application_raises_health initialState 0 (1#2) (6#7))
      as (H & _).
    destruct H as (_ & H); [reflexivity | exact H].
  - destruct (heal_application_raises_health
                (step initialState (Attack (1#2) 0 (1#2) 0)) 0 (1#2) (6#7))
      as (_ & H).
    apply H; vm_compute; intuition discriminate.
Defined.

(** * Further properties *)

(** ** Case analysis on an action *)

(** [resetGame()] settled: the effects find nothing to change. *)
Lemma step_Reset (s : GameState) : step s Reset = initialState.
Proof.
  unfold step, dispatch. cbn [handler].
  rewrite commit_resetGame, commit_effects. unfold initialState.
  settled_fields. case_Z; cbn [andb orb negb]; try reflexivity; lia.
Qed.

(** To prove [P] of the state an action settles in: the action either
    leaves the state as it is, or its handler runs, under its guard. *)
Lemma step_elim (P : GameState -> Prop) (s : GameState) (a : Action) :
  P s ->
  (forall r1 r2 r3 r4 : Q,
      a = Attack r1 r2 r3 r4 -> actionBlocked s = false ->
      let s1 := commit s (attackMonster s r1 r2 r3 r4) in
      P (commit s1 (effects s s1))) ->
  (forall r1 r2 r3 r4 : Q,
      a = SpecialAttack r1 r2 r3 r4 -> actionBlocked s = false ->
      specialAttackAvailable s = true ->
      let s1 := commit s (specialAttackMonster s r1 r2 r3 r4) in
      P (commit s1 (effects s s1))) ->
  (forall r1 r2 r3 : Q,
      a = Heal r1 r2 r3 -> actionBlocked s = false ->
      playerHealth s <> 100 ->
      let s1 := commit s (healPlayer s r1 r2 r3) in
      P (commit s1 (effects s s1))) ->
  (a = Surrender -> gameOver s = false -> P (step s Surrender)) ->
  (a = Reset -> P initialState) ->
  P (step s a).
Proof.
  intros Hsame Hatk Hspc Hheal Hsur Hreset.
  destruct a as [r1 r2 r3 r4|r1 r2 r3 r4|r1 r2 r3| |].
  - destruct (actionBlocked s) eqn:Hg.
    + rewrite (step_blocked s (Attack r1 r2 r3 r4) Hg). exact Hsame.
    + apply (Hatk r1 r2 r3 r4 eq_refl eq_refl).
  - destruct (actionBlocked s) eqn:Hg.
    + rewrite (step_blocked s (SpecialAttack r1 r2 r3 r4) Hg). exact Hsame.
    + destruct (specialAttackAvailable s) eqn:Ha.
      * apply (Hspc r1 r2 r3 r4 eq_refl eq_refl eq_refl).
      * rewrite blocked_step; [exact Hsame|].
        cbn [handler]. unfold specialAttackMonster. rewrite Hg, Ha.
        reflexivity.
  - destruct (actionBlocked s) eqn:Hg.
    + rewrite (step_blocked s (Heal r1 r2 r3) Hg). exact Hsame.
    + destruct (Z.eq_dec (playerHealth s) 100) as [Hfull|Hfull].
      * rewrite blocked_step; [exact Hsame|].
        cbn [handler]. unfold healPlayer. rewrite Hg.
        apply Z.eqb_eq in Hfull. rewrite Hfull. reflexivity.
      * apply (Hheal r1 r2 r3 eq_refl eq_refl Hfull).
  - destruct (gameOver s) eqn:Hgo.
    + rewrite step_Surrender_over by exact Hgo. exact Hsame.
    + apply Hsur; reflexivity.
  - rewrite step_Reset. apply Hreset. reflexivity.
Qed.

(** The three running cases of [step_elim], written out as records. *)
Ltac settle_turn :=
  cbv zeta; intros; subst;
  first [ rewrite commit_attackMonster, commit_effects by assumption
        | rewrite commit_specialAttackMonster, commit_effects by assumption
        | rewrite commit_healPlayer, commit_effects by assumption ];
  settled_fields.

Lemma runs_false_handler (s : GameState) (a : Action) :
  runs s a = false <-> handler s a = [].
Proof.
  destruct a as [r1 r2 r3 r4|r1 r2 r3 r4|r1 r2 r3| |]; cbn [runs handler];
    unfold attackMonster, specialAttackMonster, healPlayer, surrender,
      resetGame;
    try match goal with
        | |- negb ?g = false <-> _ => destruct g
        end;
    cbn [negb app]; split; intros H; try reflexivity; discriminate H.
Qed.

Lemma runs_false_step (s : GameState) (a : Action) :
  runs s a = false -> step s a = s.
Proof. intros H. apply blocked_step, runs_false_handler, H. Qed.

(** ** Reset and the end of a game *)

(** X1.  [resetGame()] settles in the initial state from every state, and
    so does every sequence of actions that ends with it. *)
Theorem reset_restores_initial_state (s : GameState) (l : list Action) :
  step s Reset = initialState /\ play s (l ++ [Reset]) = initialState.
Proof.
  split; [apply step_Reset|]. rewrite play_snoc. apply step_Reset.
Qed.

(** X2.  Once [gameOver] is true, every action but a reset queues nothing
    and leaves the state as it is, and so does every sequence of such
    actions. *)
Theorem game_over_is_terminal (s : GameState) (a : Action)
  (l : list Action) :
  gameOver s = true ->
  (isReset a = false -> handler s a = [] /\ step s a = s)
  /\ (forallb (fun b => negb (isReset b)) l = true -> play s l = s).
Proof.
  intros Hgo.
  assert (Hone : forall b, isReset b = false ->
                           handler s b = [] /\ step s b = s).
  { intros b Hb.
    assert (Hr : runs s b = false).
    { destruct b; cbn [runs isReset] in *; unfold actionBlocked;
        rewrite ?Hgo; cbn [orb negb]; try reflexivity; discriminate Hb. }
    split; [apply runs_false_handler | apply runs_false_step]; exact Hr. }
  split; [apply Hone|].
  induction l as [|b l IH]; intros Hl; [reflexivity|].
  cbn [forallb] in Hl. apply andb_true_iff in Hl. destruct Hl as [Hb Hl].
  apply negb_true_iff in Hb. unfold play. cbn [fold_left].
  destruct (Hone b Hb) as [_ Hstep]. rewrite Hstep. apply IH, Hl.
Qed.

Lemma game_over_is_terminal_witness :
  let s := step (battle 40 60) Surrender in
  gameOver s = true
  /\ step s (Heal 0 0 0) = s
  /\ play s [Attack 0 0 0 0; Surrender; SpecialAttack 0 0 0 0] = s.
Proof.
  cbv zeta.
  assert (Hgo : gameOver (step (battle 40 60) Surrender) = true)
    by reflexivity.
  split; [exact Hgo|]. split.
  - destruct (game_over_is_terminal (step (battle 40 60) Surrender)
                (Heal 0 0 0) [] Hgo) as (H & _).
    apply H. reflexivity.
  - destruct (game_over_is_terminal (step (battle 40 60) Surrender)
                Reset [Attack 0 0 0 0; Surrender; SpecialAttack 0 0 0 0]
                Hgo) as (_ & H).
    apply H. reflexivity.
Defined.

(** ** Rolls *)



(** X4.  With the value draw in [0, 1): the player's attack deals 5 to 11,
    7 to 16 when critical; the special attack 10 to 19, 15 to 28 when
    critical; the monster 8 to 14, 12 to 21 when critical; a heal rolls 8 to
    19.  A critical hit is never weaker than the plain roll. *)
Theorem damage_ranges (r1 r2 : Q) :
  JS.unit_interval r2 ->
  let attack := rolledDamage ATTACK_MIN_DAMAGE ATTACK_MAX_DAMAGE r1 r2 in
  let special :=
    rolledDamage SPECIAL_ATTACK_MIN_DAMAGE SPECIAL_ATTACK_MAX_DAMAGE r1 r2 in
  let bite :=
    rolledDamage MONSTER_ATTACK_MIN_DAMAGE MONSTER_ATTACK_MAX_DAMAGE r1 r2 in
  (if isCriticalHit r1
   then 7 <= attack <= 16 /\ 15 <= special <= 28 /\ 12 <= bite <= 21
   else 5 <= attack <= 11 /\ 10 <= special <= 19 /\ 8 <= bite <= 14)
  /\ 8 <= getRandomValue HEAL_MIN_VALUE HEAL_MAX_VALUE r2 <= 19
  /\ (forall damage : Z, 0 <= damage -> damage <= criticalDamage damage).
Proof.
  intros Hr. cbv zeta. unfold rolledDamage.
  pose proof (getRandomValue_range ATTACK_MIN_DAMAGE ATTACK_MAX_DAMAGE r2)
    as Ha.
  pose proof (getRandomValue_range SPECIAL_ATTACK_MIN_DAMAGE
                SPECIAL_ATTACK_MAX_DAMAGE r2) as Hs.
  pose proof (getRandomValue_range MONSTER_ATTACK_MIN_DAMAGE
                MONSTER_ATTACK_MAX_DAMAGE r2) as Hm.
  pose proof (getRandomValue_range HEAL_MIN_VALUE HEAL_MAX_VALUE r2) as Hh.
  unfold ATTACK_MIN_DAMAGE, ATTACK_MAX_DAMAGE, SPECIAL_ATTACK_MIN_DAMAGE,
    SPECIAL_ATTACK_MAX_DAMAGE, MONSTER_ATTACK_MIN_DAMAGE,
    MONSTER_ATTACK_MAX_DAMAGE, HEAL_MIN_VALUE, HEAL_MAX_VALUE in *.
  specialize (Ha ltac:(lia) Hr). specialize (Hs ltac:(lia) Hr).
  specialize (Hm ltac:(lia) Hr). specialize (Hh ltac:(lia) Hr).
  split; [|split; [lia | apply criticalDamage_ge]].
  destruct (isCriticalHit r1); [|lia].
  rewrite !criticalDamage_div.
  repeat split; Z.div_mod_to_equations; lia.
Qed.

Lemma damage_ranges_witness :
  JS.unit_interval (9#10)
  /\ rolledDamage SPECIAL_ATTACK_MIN_DAMAGE SPECIAL_ATTACK_MAX_DAMAGE
       0 (9#10) = 28
  /\ 15 <= rolledDamage SPECIAL_ATTACK_MIN_DAMAGE SPECIAL_ATTACK_MAX_DAMAGE
             0 (9#10) <= 28.
Proof.
  assert (Hr : JS.unit_interval (9#10))
    by (vm_compute; intuition discriminate).
  split; [exact Hr|]. split; [reflexivity|].
  destruct (damage_ranges 0 (9#10) Hr) as (H & _).
  change (isCriticalHit 0) with true in H. cbv beta iota in H.
  destruct H as (_ & H & _). exact H.
Defined.

(** ** Invariants of a game *)

Lemma play_invariant (I : GameState -> Prop) :
  I initialState ->
  (forall (s : GameState) (a : Action), I s -> I (step s a)) ->
  forall l : list Action, I (play initialState l).
Proof.
  intros H0 Hstep l. induction l as [|a l IH] using rev_ind; [exact H0|].
  rewrite play_snoc. apply Hstep, IH.
Qed.

Lemma play_invariant_drawn (I : GameState -> Prop) :
  I initialState ->
  (forall (s : GameState) (a : Action), wellDrawn a -> I s -> I (step s a)) ->
  forall l : list Action, Forall wellDrawn l -> I (play initialState l).
Proof.
  intros H0 Hstep l. induction l as [|a l IH] using rev_ind; intros Hl;
    [exact H0|].
  rewrite play_snoc. apply Forall_app in Hl. destruct Hl as [Hl Ha].
  apply Hstep; [inversion Ha; assumption | apply IH, Hl].
Qed.

(** One of the three outcomes of [winnerSettled], by arithmetic. *)
Ltac pick_outcome :=
  solve [ left; repeat split; try reflexivity; lia
        | right; left; repeat split; try reflexivity; lia
        | right; right; repeat split; try reflexivity; lia ].

Lemma winnerSettled_running (s : GameState) :
  winnerSettled s -> actionBlocked s = false ->
  gameOver s = false /\ winner s = None
  /\ 0 < playerHealth s /\ 0 < monsterHealth s.
Proof.
  intros Hs Hg. apply actionBlocked_false in Hg.
  destruct Hg as (Hgo & Hp & Hm).
  destruct Hs as [Hs|[Hs|Hs]]; destruct Hs as (Hgo' & Hw & _);
    [tauto | congruence | congruence].
Qed.

Lemma step_winnerSettled (s : GameState) (a : Action) :
  winnerSettled s -> winnerSettled (step s a).
Proof.
  intros Hs. apply step_elim; [exact Hs| | | | |].
  - settle_turn.
    destruct (winnerSettled_running s Hs ltac:(assumption))
      as (Hgo & Hw & Hp & Hm).
    unfold winnerSettled. settled_fields. rewrite Hgo, Hw.
    case_Z; cbn [andb orb]; pick_outcome.
  - settle_turn.
    destruct (winnerSettled_running s Hs ltac:(assumption))
      as (Hgo & Hw & Hp & Hm).
    unfold winnerSettled. settled_fields. rewrite Hgo, Hw.
    case_Z; cbn [andb orb]; pick_outcome.
  - settle_turn.
    destruct (winnerSettled_running s Hs ltac:(assumption))
      as (Hgo & Hw & Hp & Hm).
    unfold winnerSettled. settled_fields. rewrite Hgo, Hw.
    case_Z; cbn [andb orb]; pick_outcome.
  - intros _ Hgo. rewrite step_Surrender by exact Hgo.
    destruct Hs as [Hs|[Hs|Hs]]; destruct Hs as (Hgo' & Hw & Hp & Hm);
      try congruence.
    unfold winnerSettled. settled_fields.
    case_Z; cbn [andb orb]; pick_outcome.
  - intros _. unfold winnerSettled. cbn. left. repeat split; lia.
Qed.

(** X5.  In every game from the initial state the winner agrees with the
    healths: none while the game is on, with both healths above 0; the
    player with the monster at 0 or below and the player above; the monster
    the other way round.  The healths are never both used up, and the
    winner is never a draw. *)
Theorem winner_matches_healths (l : list Action) :
  let s := play initialState l in
  winnerSettled s
  /\ winner s <> Some draw
  /\ ~ (playerHealth s <= 0 /\ monsterHealth s <= 0).
Proof.
  cbv zeta.
  assert (Hs : winnerSettled (play initialState l)).
  { apply play_invariant; [|intros; apply step_winnerSettled; assumption].
    unfold winnerSettled. cbn. left. repeat split; lia. }
  split; [exact Hs|].
  destruct Hs as [Hs|[Hs|Hs]]; destruct Hs as (_ & Hw & Hp & Hm);
    rewrite Hw; split; try discriminate; lia.
Qed.

Lemma step_cooldown_range (s : GameState) (a : Action) :
  0 <= specialAttackCooldown s <= 3 ->
  0 <= specialAttackCooldown (step s a) <= 3.
Proof.
  intros Hs. apply step_elim; [exact Hs| | | | |].
  - settle_turn. case_Z; lia.
  - settle_turn. unfold SPECIAL_ATTACK_COOLDOWN. lia.
  - settle_turn. case_Z; lia.
  - intros _ Hgo. rewrite step_Surrender by exact Hgo. settled_fields.
    exact Hs.
  - intros _. cbn. lia.
Qed.

(** X6.  In every game from the initial state the cooldown of the special
    attack is 0, 1, 2 or 3, and the special attack is available exactly at
    0. *)
Theorem cooldown_range (l : list Action) :
  let s := play initialState l in
  0 <= specialAttackCooldown s <= 3
  /\ specialAttackAvailable s = (specialAttackCooldown s =? 0).
Proof.
  cbv zeta. split.
  - apply play_invariant with (I := fun s => 0 <= specialAttackCooldown s <= 3);
      [cbn; lia | intros; apply step_cooldown_range; assumption].
  - apply play_cooldownTracked.
Qed.

(** [step_elim] for an action whose handler runs. *)
Lemma step_runs_elim (P : GameState -> Prop) (s : GameState) (a : Action) :
  runs s a = true ->
  (forall r1 r2 r3 r4 : Q,
      a = Attack r1 r2 r3 r4 -> actionBlocked s = false ->
      let s1 := commit s (attackMonster s r1 r2 r3 r4) in
      P (commit s1 (effects s s1))) ->
  (forall r1 r2 r3 r4 : Q,
      a = SpecialAttack r1 r2 r3 r4 -> actionBlocked s = false ->
      specialAttackAvailable s = true ->
      let s1 := commit s (specialAttackMonster s r1 r2 r3 r4) in
      P (commit s1 (effects s s1))) ->
  (forall r1 r2 r3 : Q,
      a = Heal r1 r2 r3 -> actionBlocked s = false ->
      playerHealth s <> 100 ->
      let s1 := commit s (healPlayer s r1 r2 r3) in
      P (commit s1 (effects s s1))) ->
  (a = Surrender -> gameOver s = false -> P (step s Surrender)) ->
  (a = Reset -> P initialState) ->
  P (step s a).
Proof.
  intros Hr Hatk Hspc Hheal Hsur Hreset.
  destruct a as [r1 r2 r3 r4|r1 r2 r3 r4|r1 r2 r3| |]; cbn [runs] in Hr;
    apply negb_true_iff in Hr || idtac.
  - apply (Hatk r1 r2 r3 r4 eq_refl Hr).
  - apply orb_false_iff in Hr. destruct Hr as [Hg Ha].
    apply negb_false_iff in Ha. apply (Hspc r1 r2 r3 r4 eq_refl Hg Ha).
  - apply orb_false_iff in Hr. destruct Hr as [Hg Hfull].
    apply Z.eqb_neq in Hfull. apply (Hheal r1 r2 r3 eq_refl Hg Hfull).
  - apply (Hsur eq_refl Hr).
  - rewrite step_Reset. apply (Hreset eq_refl).
Qed.

(** X7.  A turn (attack, special attack or heal) whose handler runs adds
    exactly 1 to the round counter and to [roundsPlayed]; a turn that is
    blocked, and a surrender, add nothing: the monster's counter-attack is
    not a round of its own.  In every game from the initial state the two
    counters are equal, and the critical hits counted are between 0 and the
    rounds played. *)
Theorem rounds_counted_once :
  (forall (s : GameState) (a : Action),
      isReset a = false ->
      let s' := step s a in
      let turn := if runs s a && takesTurn a then 1 else 0 in
      currentRound s' = currentRound s + turn
      /\ roundsPlayed (gameStats s') = roundsPlayed (gameStats s) + turn)
  /\ (forall l : list Action,
      let s := play initialState l in
      currentRound s = roundsPlayed (gameStats s)
      /\ 0 <= criticalHits (gameStats s) <= roundsPlayed (gameStats s)).
Proof.
  split.
  - intros s a Ha. cbv zeta. destruct (runs s a) eqn:Hr.
    + cbn [andb]. apply step_runs_elim; [exact Hr| | | | |].
      * settle_turn. cbn [takesTurn]. split; reflexivity.
      * settle_turn. cbn [takesTurn]. split; reflexivity.
      * settle_turn. cbn [takesTurn]. split; reflexivity.
      * intros -> Hgo. rewrite step_Surrender by exact Hgo.
        settled_fields. cbn [takesTurn]. lia.
      * intros ->. discriminate Ha.
    + rewrite runs_false_step by exact Hr. cbn [andb]. lia.
  - intros l. cbv zeta.
    apply play_invariant
      with (I := fun s =>
                   currentRound s = roundsPlayed (gameStats s)
                   /\ 0 <= criticalHits (gameStats s)
                      <= roundsPlayed (gameStats s));
      [cbn; lia|].
    intros s a Hs. apply step_elim; [exact Hs| | | | |].
    + settle_turn. destruct (isCriticalHit r1); lia.
    + settle_turn. destruct (isCriticalHit r1); lia.
    + settle_turn. lia.
    + intros _ Hgo. rewrite step_Surrender by exact Hgo. settled_fields.
      exact Hs.
    + intros _. cbn. lia.
Qed.

Lemma rounds_counted_once_witness :
  let s := step initialState (Attack (1#2) 0 (1#2) 0) in
  currentRound (step s (Heal 0 (1#2) 0)) = currentRound s + 1
  /\ currentRound (step s Surrender) = currentRound s + 0.
Proof.
  cbv zeta. destruct rounds_counted_once as (H & _). split.
  - apply (H (step initialState (Attack (1#2) 0 (1#2) 0)) (Heal 0 (1#2) 0)).
    reflexivity.
  - apply (H (step initialState (Attack (1#2) 0 (1#2) 0)) Surrender).
    reflexivity.
Defined.

Lemma step_damageAccounted (s : GameState) (a : Action) :
  damageAccounted s -> damageAccounted (step s a).
Proof.
  intros Hs. pose proof Hs as (Hm & Hp).
  apply step_elim; [exact Hs| | | | |].
  - settle_turn.
    match goal with H : actionBlocked s = false |- _ =>
      apply actionBlocked_false in H; destruct H as (Hgo & Hp0 & Hm0) end.
    assert (Hp' : playerHealth s
                  = Z.max (100 - monsterDamageDealt (gameStats s)) 0)
      by (destruct Hp as [Hp|[Hp _]]; [exact Hp | lia]).
    unfold damageAccounted. settled_fields.
    case_Z; (split; [lia | left; lia]).
  - settle_turn.
    match goal with H : actionBlocked s = false |- _ =>
      apply actionBlocked_false in H; destruct H as (Hgo & Hp0 & Hm0) end.
    assert (Hp' : playerHealth s
                  = Z.max (100 - monsterDamageDealt (gameStats s)) 0)
      by (destruct Hp as [Hp|[Hp _]]; [exact Hp | lia]).
    unfold damageAccounted. settled_fields.
    case_Z; (split; [lia | left; lia]).
  - settle_turn.
    match goal with H : actionBlocked s = false |- _ =>
      apply actionBlocked_false in H; destruct H as (Hgo & Hp0 & Hm0) end.
    assert (Hp' : playerHealth s
                  = Z.max (100 - monsterDamageDealt (gameStats s)) 0)
      by (destruct Hp as [Hp|[Hp _]]; [exact Hp | lia]).
    unfold damageAccounted. settled_fields.
    case_Z; (split; [lia | left; lia]).
  - intros _ Hgo. rewrite step_Surrender by exact Hgo.
    unfold damageAccounted. settled_fields.
    split; [exact Hm | right; split; reflexivity].
  - intros _. unfold damageAccounted. cbn. split; [|left]; reflexivity.
Qed.

(** X8.  In every game from the initial state the monster's health is what
    the damage counted in [playerDamageDealt] leaves of 100, or 0 when the
    count is above 100: the count takes the whole roll of a lethal hit.
    The player's health is likewise what [monsterDamageDealt] leaves of
    100, unless the player has surrendered: no healing enters it. *)
Theorem healths_are_damage_counted (l : list Action) :
  let s := play initialState l in
  monsterHealth s = Z.max (100 - playerDamageDealt (gameStats s)) 0
  /\ (playerHealth s = Z.max (100 - monsterDamageDealt (gameStats s)) 0
      \/ (playerHealth s = 0 /\ gameOver s = true)).
Proof.
  cbv zeta. apply (play_invariant damageAccounted);
    [|intros; apply step_damageAccounted; assumption].
  unfold damageAccounted. cbn. split; [|left]; reflexivity.
Qed.

(** ** What a turn costs *)

(** X9.  A heal whose handler runs settles with the player's health at the
    health before the heal less the monster's damage, 0 at least: the
    counter-attack computes the new health from the render the heal was
    clicked in, and its update is processed after the heal's.  With the
    monster's value draw in [0, 1) the player's health ends strictly lower
    than before; the monster's health stays. *)
Theorem heal_settles_lower (s : GameState) (r1 r2 r3 : Q) :
  inProgress s -> playerHealth s <> 100 -> JS.unit_interval r3 ->
  let s' := step s (Heal r1 r2 r3) in
  let bite :=
    rolledDamage MONSTER_ATTACK_MIN_DAMAGE MONSTER_ATTACK_MAX_DAMAGE r2 r3 in
  playerHealth s' = Z.max (playerHealth s - bite) 0
  /\ playerHealth s' < playerHealth s
  /\ monsterHealth s' = monsterHealth s.
Proof.
  intros Hin Hfull Hr. pose proof Hin as (Hgo & Hp & Hm).
  apply actionBlocked_false in Hin. cbv zeta.
  pose proof (rolledDamage_lower MONSTER_ATTACK_MIN_DAMAGE
                MONSTER_ATTACK_MAX_DAMAGE r2 r3) as Hd.
  unfold MONSTER_ATTACK_MIN_DAMAGE, MONSTER_ATTACK_MAX_DAMAGE in *.
  specialize (Hd ltac:(lia) ltac:(lia) Hr).
  unfold step, dispatch. cbn [handler].
  rewrite commit_healPlayer, commit_effects by assumption.
  settled_fields.
  unfold MONSTER_ATTACK_MIN_DAMAGE, MONSTER_ATTACK_MAX_DAMAGE. lia.
Qed.

Lemma heal_settles_lower_witness :
  let s := battle 50 50 in
  inProgress s /\ playerHealth s <> 100 /\ JS.unit_interval (1#2)
  /\ playerHealth (step s (Heal (9#10) (1#2) (1#2))) = 39
  /\ playerHealth (step s (Heal (9#10) (1#2) (1#2))) < playerHealth s.
Proof.
  cbv zeta.
  assert (Hin : inProgress (battle 50 50))
    by (unfold inProgress; vm_compute; repeat split).
  assert (Hfull : playerHealth (battle 50 50) <> 100)
    by (vm_compute; discriminate).
  assert (Hr : JS.unit_interval (1#2))
    by (vm_compute; intuition discriminate).
  split; [exact Hin|]. split; [exact Hfull|]. split; [exact Hr|].
  split; [reflexivity|].
  apply (heal_settles_lower (battle 50 50) (9#10) (1#2) (1#2) Hin Hfull Hr).
Defined.

(** X10.  With the draws in [0, 1) and the player's health at 0 or above, no
    action but a reset settles with the player's health above what it
    was. *)
Theorem player_health_never_rises (s : GameState) (a : Action) :
  0 <= playerHealth s -> wellDrawn a -> isReset a = false ->
  playerHealth (step s a) <= playerHealth s.
Proof.
  intros Hp Ha Hreset. apply step_elim; [lia| | | | |].
  - settle_turn. cbn [wellDrawn] in Ha. destruct Ha as (_ & _ & _ & H4).
    pose proof (rolledDamage_lower MONSTER_ATTACK_MIN_DAMAGE
                  MONSTER_ATTACK_MAX_DAMAGE r3 r4) as Hd.
    unfold MONSTER_ATTACK_MIN_DAMAGE, MONSTER_ATTACK_MAX_DAMAGE in *.
    specialize (Hd ltac:(lia) ltac:(lia) H4). case_Z; lia.
  - settle_turn. cbn [wellDrawn] in Ha. destruct Ha as (_ & _ & _ & H4).
    pose proof (rolledDamage_lower MONSTER_ATTACK_MIN_DAMAGE
                  MONSTER_ATTACK_MAX_DAMAGE r3 r4) as Hd.
    unfold MONSTER_ATTACK_MIN_DAMAGE, MONSTER_ATTACK_MAX_DAMAGE in *.
    specialize (Hd ltac:(lia) ltac:(lia) H4). case_Z; lia.
  - settle_turn. cbn [wellDrawn] in Ha. destruct Ha as (_ & _ & H3).
    pose proof (rolledDamage_lower MONSTER_ATTACK_MIN_DAMAGE
                  MONSTER_ATTACK_MAX_DAMAGE r2 r3) as Hd.
    unfold MONSTER_ATTACK_MIN_DAMAGE, MONSTER_ATTACK_MAX_DAMAGE in *.
    specialize (Hd ltac:(lia) ltac:(lia) H3). lia.
  - intros _ Hgo. rewrite step_Surrender by exact Hgo. settled_fields.
    exact Hp.
  - intros ->. discriminate Hreset.
Qed.

Lemma player_health_never_rises_witness :
  let s := battle 60 100 in
  let a := Heal (9#10) (9#10) 0 in
  0 <= playerHealth s /\ wellDrawn a
  /\ playerHealth (step s a) <= playerHealth s.
Proof.
  cbv zeta.
  assert (Hp : 0 <= playerHealth (battle 60 100))
    by (vm_compute; discriminate).
  assert (Ha : wellDrawn (Heal (9#10) (9#10) 0))
    by (vm_compute; intuition discriminate).
  split; [exact Hp|]. split; [exact Ha|].
  apply (player_health_never_rises (battle 60 100) (Heal (9#10) (9#10) 0)
           Hp Ha eq_refl).
Defined.

(** X11.  An attack or a special attack whose handler runs, with its value
    draw in [0, 1), settles with the monster's health at the health before
    less the damage, 0 at least, and strictly lower than before; an attack
    on a monster at 5 or below, and a special attack on a monster at 10 or
    below, ends the game with the player as the winner. *)
Theorem hits_lower_monster_health (s : GameState) (r1 r2 r3 r4 : Q) :
  inProgress s -> JS.unit_interval r2 ->
  (let s' := step s (Attack r1 r2 r3 r4) in
   monsterHealth s'
   = Z.max (monsterHealth s
            - rolledDamage ATTACK_MIN_DAMAGE ATTACK_MAX_DAMAGE r1 r2) 0
   /\ monsterHealth s' < monsterHealth s
   /\ (monsterHealth s <= 5 ->
       monsterHealth s' = 0 /\ gameOver s' = true
       /\ winner s' = Some player))
  /\ (specialAttackAvailable s = true ->
      let s' := step s (SpecialAttack r1 r2 r3 r4) in
      monsterHealth s'
      = Z.max (monsterHealth s
               - rolledDamage SPECIAL_ATTACK_MIN_DAMAGE
                   SPECIAL_ATTACK_MAX_DAMAGE r1 r2) 0
      /\ monsterHealth s' < monsterHealth s
      /\ (monsterHealth s <= 10 ->
          monsterHealth s' = 0 /\ gameOver s' = true
          /\ winner s' = Some player)).
Proof.
  intros Hin Hr. pose proof Hin as (Hgo & Hp & Hm).
  apply actionBlocked_false in Hin.
  pose proof (rolledDamage_lower ATTACK_MIN_DAMAGE ATTACK_MAX_DAMAGE r1 r2)
    as Ha.
  pose proof (rolledDamage_lower SPECIAL_ATTACK_MIN_DAMAGE
                SPECIAL_ATTACK_MAX_DAMAGE r1 r2) as Hs.
  unfold ATTACK_MIN_DAMAGE, ATTACK_MAX_DAMAGE, SPECIAL_ATTACK_MIN_DAMAGE,
    SPECIAL_ATTACK_MAX_DAMAGE in *.
  specialize (Ha ltac:(lia) ltac:(lia) Hr).
  specialize (Hs ltac:(lia) ltac:(lia) Hr).
  split.
  - cbv zeta. unfold step, dispatch. cbn [handler].
    rewrite commit_attackMonster, commit_effects by assumption.
    settled_fields. unfold ATTACK_MIN_DAMAGE, ATTACK_MAX_DAMAGE.
    split; [reflexivity|]. split; [lia|]. intros Hlow.
    match goal with |- context [0 <? ?m] =>
      replace (0 <? m) with false by (symmetry; apply Z.ltb_ge; lia) end.
    case_Z; cbn [andb orb]; repeat split; first [reflexivity | lia].
  - intros Hav. cbv zeta. unfold step, dispatch. cbn [handler].
    rewrite commit_specialAttackMonster, commit_effects by assumption.
    settled_fields.
    unfold SPECIAL_ATTACK_MIN_DAMAGE, SPECIAL_ATTACK_MAX_DAMAGE.
    split; [reflexivity|]. split; [lia|]. intros Hlow.
    match goal with |- context [0 <? ?m] =>
      replace (0 <? m) with false by (symmetry; apply Z.ltb_ge; lia) end.
    case_Z; cbn [andb orb]; repeat split; first [reflexivity | lia].
Qed.

Lemma hits_lower_monster_health_witness :
  let s := battle 30 5 in
  inProgress s /\ JS.unit_interval 0
  /\ monsterHealth (step s (Attack (1#2) 0 0 0)) = 0
  /\ gameOver (step s (Attack (1#2) 0 0 0)) = true
  /\ winner (step s (Attack (1#2) 0 0 0)) = Some player.
Proof.
  cbv zeta.
  assert (Hin : inProgress (battle 30 5))
    by (unfold inProgress; vm_compute; repeat split).
  assert (Hr : JS.unit_interval 0) by (vm_compute; intuition discriminate).
  split; [exact Hin|]. split; [exact Hr|].
  destruct (hits_lower_monster_health (battle 30 5) (1#2) 0 0 0 Hin Hr)
    as ((_ & _ & H) & _).
  apply H. vm_compute. discriminate.
Defined.

(** The monster's damage is 8 at least. *)
Lemma bite_lower (r1 r2 : Q) :
  JS.unit_interval r2 ->
  8 <= rolledDamage MONSTER_ATTACK_MIN_DAMAGE MONSTER_ATTACK_MAX_DAMAGE r1 r2.
Proof.
  intros Hr. apply (rolledDamage_lower 8 15 r1 r2); [lia | lia | exact Hr].
Qed.

Lemma step_roundsBounded (s : GameState) (a : Action) :
  wellDrawn a -> roundsBounded s -> roundsBounded (step s a).
Proof.
  intros Ha Hs. pose proof Hs as (Heq & Hrange & Hcost).
  apply step_elim; [exact Hs| | | | |].
  - settle_turn. cbn [wellDrawn] in Ha. destruct Ha as (_ & _ & _ & H4).
    pose proof (bite_lower r3 r4 H4) as Hd.
    match goal with H : actionBlocked s = false |- _ =>
      apply actionBlocked_false in H; specialize (Hcost H);
      destruct H as (Hgo & Hp & Hm) end.
    unfold roundsBounded, inProgress. settled_fields.
    match goal with |- context [0 <? ?m] => destruct (Z.ltb_spec 0 m) end;
      (split; [lia|]; split; [lia|]; intros (_ & Hp' & Hm'); lia).
  - settle_turn. cbn [wellDrawn] in Ha. destruct Ha as (_ & _ & _ & H4).
    pose proof (bite_lower r3 r4 H4) as Hd.
    match goal with H : actionBlocked s = false |- _ =>
      apply actionBlocked_false in H; specialize (Hcost H);
      destruct H as (Hgo & Hp & Hm) end.
    unfold roundsBounded, inProgress. settled_fields.
    match goal with |- context [0 <? ?m] => destruct (Z.ltb_spec 0 m) end;
      (split; [lia|]; split; [lia|]; intros (_ & Hp' & Hm'); lia).
  - settle_turn. cbn [wellDrawn] in Ha. destruct Ha as (_ & _ & H3).
    pose proof (bite_lower r2 r3 H3) as Hd.
    match goal with H : actionBlocked s = false |- _ =>
      apply actionBlocked_false in H; specialize (Hcost H);
      destruct H as (Hgo & Hp & Hm) end.
    unfold roundsBounded, inProgress. settled_fields.
    split; [lia|]; split; [lia|]; intros (_ & Hp' & Hm'); lia.
  - intros _ Hgo. rewrite step_Surrender by exact Hgo.
    unfold roundsBounded, inProgress. settled_fields.
    split; [exact Heq|]. split; [exact Hrange|].
    intros (Hgo' & _). discriminate Hgo'.
  - intros _. unfold roundsBounded, inProgress. cbn. lia.
Qed.

(** X12.  A game from the initial state whose draws are in [0, 1) has 13
    rounds at most: in every round that leaves the game on, the monster
    takes 8 points or more off the player's health, and nothing gives them
    back. *)
Theorem game_has_at_most_13_rounds (l : list Action) :
  Forall wellDrawn l ->
  let s := play initialState l in
  0 <= currentRound s <= 13
  /\ (inProgress s -> playerHealth s <= 100 - 8 * currentRound s).
Proof.
  intros Hl. cbv zeta.
  assert (Hs : roundsBounded (play initialState l)).
  { apply play_invariant_drawn;
      [|intros; apply step_roundsBounded; assumption | exact Hl].
    unfold roundsBounded, inProgress. cbn. lia. }
  destruct Hs as (_ & Hrange & Hcost). split; assumption.
Qed.

Lemma game_has_at_most_13_rounds_witness :
  let l := [Heal 0 0 0; Attack (1#2) 0 (1#2) 0; Heal (9#10) (1#2) 0] in
  Forall wellDrawn l
  /\ currentRound (play initialState l) = 2
  /\ 0 <= currentRound (play initialState l) <= 13.
Proof.
  cbv zeta.
  assert (Hl : Forall wellDrawn
                 [Heal 0 0 0; Attack (1#2) 0 (1#2) 0; Heal (9#10) (1#2) 0])
    by (repeat constructor; vm_compute; intuition discriminate).
  split; [exact Hl|]. split; [reflexivity|].
  apply (game_has_at_most_13_rounds _ Hl).
Defined.

(** X13.  With both healths in [0, 100] and the draws in [0, 1), no action
    but a reset lowers a statistic. *)
Theorem stats_never_fall (s : GameState) (a : Action) :
  healthBounded s -> wellDrawn a -> isReset a = false ->
  statsLe (gameStats s) (gameStats (step s a)).
Proof.
  intros ((_ & Hp100) & _) Ha Hreset.
  apply step_elim;
    [unfold statsLe; lia | | | | |].
  - settle_turn. cbn [wellDrawn] in Ha. destruct Ha as (_ & Hv & _ & Hb).
    pose proof (bite_lower r3 r4 Hb) as Hd.
    pose proof (rolledDamage_lower ATTACK_MIN_DAMAGE ATTACK_MAX_DAMAGE r1 r2)
      as Hh.
    unfold ATTACK_MIN_DAMAGE, ATTACK_MAX_DAMAGE in *.
    specialize (Hh ltac:(lia) ltac:(lia) Hv).
    unfold statsLe. settled_fields.
    destruct (isCriticalHit r1); case_Z; lia.
  - settle_turn. cbn [wellDrawn] in Ha. destruct Ha as (_ & Hv & _ & Hb).
    pose proof (bite_lower r3 r4 Hb) as Hd.
    pose proof (rolledDamage_lower SPECIAL_ATTACK_MIN_DAMAGE
                  SPECIAL_ATTACK_MAX_DAMAGE r1 r2) as Hh.
    unfold SPECIAL_ATTACK_MIN_DAMAGE, SPECIAL_ATTACK_MAX_DAMAGE in *.
    specialize (Hh ltac:(lia) ltac:(lia) Hv).
    unfold statsLe. settled_fields.
    destruct (isCriticalHit r1); case_Z; lia.
  - settle_turn. cbn [wellDrawn] in Ha. destruct Ha as (Hv & _ & Hb).
    pose proof (bite_lower r2 r3 Hb) as Hd.
    pose proof (getRandomValue_range HEAL_MIN_VALUE HEAL_MAX_VALUE r1) as Hh.
    unfold HEAL_MIN_VALUE, HEAL_MAX_VALUE in *.
    specialize (Hh ltac:(lia) Hv).
    unfold statsLe. settled_fields. case_Z; lia.
  - intros _ Hgo. rewrite step_Surrender by exact Hgo.
    unfold statsLe. settled_fields. lia.
  - intros ->. discriminate Hreset.
Qed.

Lemma stats_never_fall_witness :
  let s := battle 95 40 in
  let a := Heal (9#10) 0 (9#10) in
  healthBounded s /\ wellDrawn a
  /\ statsLe (gameStats s) (gameStats (step s a)).
Proof.
  cbv zeta.
  assert (Hs : healthBounded (battle 95 40))
    by (unfold healthBounded; vm_compute; intuition discriminate).
  assert (Ha : wellDrawn (Heal (9#10) 0 (9#10)))
    by (vm_compute; intuition discriminate).
  split; [exact Hs|]. split; [exact Ha|].
  apply (stats_never_fall (battle 95 40) (Heal (9#10) 0 (9#10)) Hs Ha
           eq_refl).
Defined.

(** ** The log *)

(** X14.  No action but a reset takes an entry off the battle log or
    changes one: the log after the action is the log before with one or two
    entries put in front when the handler runs, and the very log before when
    it does not.  A reset empties it. *)
Theorem log_grows_at_the_front (s : GameState) (a : Action) :
  (isReset a = false ->
   exists fresh : list LogEntry,
     battleLog (step s a) = (fresh ++ battleLog s)%list
     /\ (if runs s a then 1 <= List.length fresh <= 2 else fresh = [])%nat)
  /\ battleLog (step s Reset) = [].
Proof.
  split; [|rewrite step_Reset; reflexivity].
  intros Ha. destruct (runs s a) eqn:Hr.
  - apply step_runs_elim; [exact Hr| | | | |].
    + settle_turn.
      match goal with |- context [0 <? ?m] => destruct (0 <? m) end;
        [ exists [createLogAttack false
                    (rolledDamage MONSTER_ATTACK_MIN_DAMAGE
                       MONSTER_ATTACK_MAX_DAMAGE r3 r4) (isCriticalHit r3);
                  createLogAttack true
                    (rolledDamage ATTACK_MIN_DAMAGE
                       ATTACK_MAX_DAMAGE r1 r2) (isCriticalHit r1)]
        | exists [createLogAttack true
                    (rolledDamage ATTACK_MIN_DAMAGE
                       ATTACK_MAX_DAMAGE r1 r2) (isCriticalHit r1)] ];
        (split; [reflexivity | cbn [List.length]; lia]).
    + settle_turn.
      match goal with |- context [0 <? ?m] => destruct (0 <? m) end;
        [ exists [createLogAttack false
                    (rolledDamage MONSTER_ATTACK_MIN_DAMAGE
                       MONSTER_ATTACK_MAX_DAMAGE r3 r4) (isCriticalHit r3);
                  createLogAttack true
                    (rolledDamage SPECIAL_ATTACK_MIN_DAMAGE
                       SPECIAL_ATTACK_MAX_DAMAGE r1 r2) (isCriticalHit r1)]
        | exists [createLogAttack true
                    (rolledDamage SPECIAL_ATTACK_MIN_DAMAGE
                       SPECIAL_ATTACK_MAX_DAMAGE r1 r2) (isCriticalHit r1)] ];
        (split; [reflexivity | cbn [List.length]; lia]).
    + settle_turn.
      exists [createLogAttack false
                (rolledDamage MONSTER_ATTACK_MIN_DAMAGE
                   MONSTER_ATTACK_MAX_DAMAGE r2 r3) (isCriticalHit r2);
              createLogHeal
                (getRandomValue HEAL_MIN_VALUE HEAL_MAX_VALUE r1)
                (100 <=? playerHealth s
                         + getRandomValue HEAL_MIN_VALUE HEAL_MAX_VALUE r1)].
      split; [reflexivity | cbn [List.length]; lia].
    + intros -> Hgo. rewrite step_Surrender by exact Hgo. settled_fields.
      exists [surrenderEntry]. split; [reflexivity | cbn [List.length]; lia].
    + intros ->. discriminate Ha.
  - rewrite runs_false_step by exact Hr. exists []. split; reflexivity.
Qed.

Lemma log_grows_at_the_front_witness :
  let s := step initialState (Attack (1#2) 0 (1#2) 0) in
  exists fresh : list LogEntry,
    battleLog (step s (Attack (1#2) 0 (1#2) 0))
    = (fresh ++ battleLog s)%list
    /\ (1 <= List.length fresh <= 2)%nat.
Proof.
  cbv zeta.
  assert (Hruns : runs (step initialState (Attack (1#2) 0 (1#2) 0))
                    (Attack (1#2) 0 (1#2) 0) = true)
    by (vm_compute; reflexivity).
  destruct (log_grows_at_the_front
              (step initialState (Attack (1#2) 0 (1#2) 0))
              (Attack (1#2) 0 (1#2) 0)) as (H & _).
  destruct (H eq_refl) as (fresh & Hlog & Hlen).
  rewrite Hruns in Hlen.
  exists fresh. split; [exact Hlog | exact Hlen].
Defined.

(** ** The rendered controls *)

Lemma consistent_blocked (s : GameState) :
  consistent s -> actionBlocked s = gameOver s.
Proof.
  intros Hs. unfold consistent in Hs. unfold actionBlocked.
  destruct (gameOver s).
  - reflexivity.
  - cbn [orb]. case_Z; cbn [orb]; try reflexivity;
      exfalso; assert (false = true) by (apply Hs; lia); discriminate.
Qed.

(** X15.  In every render the ATTACK, SPECIAL ATTACK and HEAL buttons are
    disabled exactly when their handlers would queue nothing.  In every
    state of a game from the initial state the same holds of the SURRENDER
    button, and the START NEW GAME button is rendered exactly when the four
    action buttons are all disabled. *)
Theorem buttons_match_handlers :
  (forall (s : GameState) (r1 r2 r3 r4 : Q),
      let c := renderControls s in
      (attackDisabled c = true <-> attackMonster s r1 r2 r3 r4 = [])
      /\ (specialDisabled c = true
          <-> specialAttackMonster s r1 r2 r3 r4 = [])
      /\ (healDisabled c = true <-> healPlayer s r1 r2 r3 = []))
  /\ (forall l : list Action,
      let s := play initialState l in
      let c := renderControls s in
      (surrenderDisabled c = true <-> surrender s = [])
      /\ (resetRendered c = true
          <-> attackDisabled c = true /\ specialDisabled c = true
              /\ healDisabled c = true /\ surrenderDisabled c = true)).
Proof.
  split.
  - intros s r1 r2 r3 r4. cbv zeta.
    pose proof (runs_false_handler s (Attack r1 r2 r3 r4)) as HA.
    pose proof (runs_false_handler s (SpecialAttack r1 r2 r3 r4)) as HS.
    pose proof (runs_false_handler s (Heal r1 r2 r3)) as HH.
    cbn [runs handler] in HA, HS, HH.
    rewrite <- HA, <- HS, <- HH.
    unfold renderControls, actionBlocked.
    cbn [attackDisabled specialDisabled healDisabled].
    destruct (gameOver s), (specialAttackAvailable s),
      (playerHealth s <=? 0), (monsterHealth s <=? 0),
      (playerHealth s =? 100); cbn; intuition congruence.
  - intros l. cbv zeta.
    pose proof (consistent_blocked _ (play_consistent l)) as Hb.
    pose proof (runs_false_handler (play initialState l) Surrender) as HS.
    cbn [runs handler] in HS. rewrite <- HS.
    unfold renderControls.
    cbn [attackDisabled specialDisabled healDisabled surrenderDisabled
         resetRendered].
    unfold actionBlocked in Hb. revert Hb.
    destruct (gameOver (play initialState l)),
      (specialAttackAvailable (play initialState l)),
      (playerHealth (play initialState l) <=? 0),
      (monsterHealth (play initialState l) <=? 0),
      (playerHealth (play initialState l) =? 100);
      cbn; intuition congruence.
Qed.

(** X16.  In every state of a game from the initial state the game-over
    section is rendered exactly when the game is over; it lists the
    statistics of the state, and its headline is "You won!" with the
    monster's health used up and the player's not, or "You lost!" the other
    way round: the draw headline is never shown. *)
Theorem game_over_headline (l : list Action) :
  let s := play initialState l in
  (renderGameOver s = None <-> gameOver s = false)
  /\ (forall g : GameOverSection,
      renderGameOver s = Some g ->
      listedStats g = gameStats s
      /\ ((message g = "You won!"%string
           /\ winnerClass g = "winner-player"%string
           /\ monsterHealth s <= 0 /\ 0 < playerHealth s)
          \/ (message g = "You lost!"%string
              /\ winnerClass g = "winner-monster"%string
              /\ playerHealth s <= 0 /\ 0 < monsterHealth s))).
Proof.
  cbv zeta.
  assert (Hs : winnerSettled (play initialState l)).
  { apply play_invariant; [|intros; apply step_winnerSettled; assumption].
    unfold winnerSettled. cbn. left. repeat split; lia. }
  unfold renderGameOver.
  destruct Hs as [Hs|[Hs|Hs]]; destruct Hs as (Hgo & Hw & Hp & Hm);
    rewrite Hgo, Hw; cbn [negb].
  - split; [split; reflexivity | intros g Hg; discriminate Hg].
  - split; [split; intros H; discriminate H|].
    intros g Hg. injection Hg as <-. cbn. split; [reflexivity|].
    left. repeat split; assumption.
  - split; [split; intros H; discriminate H|].
    intros g Hg. injection Hg as <-. cbn. split; [reflexivity|].
    right. repeat split; assumption.
Qed.

Lemma game_over_headline_witness :
  let s := play initialState [Attack (1#2) 0 (1#2) 0; Surrender] in
  exists g : GameOverSection,
    renderGameOver s = Some g /\ message g = "You lost!"%string.
Proof.
  cbv zeta.
  destruct (renderGameOver
              (play initialState [Attack (1#2) 0 (1#2) 0; Surrender]))
    as [g|] eqn:Hg; [|vm_compute in Hg; discriminate Hg].
  exists g. split; [reflexivity|].
  destruct (game_over_headline [Attack (1#2) 0 (1#2) 0; Surrender])
    as (_ & H).
  destruct (H g Hg) as (_ & [(_ & _ & Hm & _)|(Hlost & _)]);
    [vm_compute in Hm; exfalso; apply Hm; reflexivity | exact Hlost].
Defined.

(** ** The effects *)

(** X17.  The effects change none of the values they depend on: after they
    have run, the healths and the cooldown are what they were, the next
    render runs no effect, and the state stays as it is. *)
Theorem effects_run_once (prev s : GameState) :
  let s' := commit s (effects prev s) in
  playerHealth s' = playerHealth s
  /\ monsterHealth s' = monsterHealth s
  /\ specialAttackCooldown s' = specialAttackCooldown s
  /\ effects s s' = []
  /\ commit s' (effects s s') = s'.
Proof.
  cbv zeta. pose proof (effects_settle prev s) as Hnil. cbv zeta in Hnil.
  rewrite Hnil. rewrite commit_effects. cbn. repeat split.
Qed.
